(** * JSON Semi-Beautifier: a shallow embedding of
      [test_scenarios/json_semi_beautifier.py]

    The development embeds the class [SemiBeautifier] (its constructor, the
    inline classifier [should_inline], the layout renderer [format_value]
    and the entry point [beautify]) together with the part of Python's
    [json.dumps] that the class calls, and proves properties of them.

    Conventions.
    - A Python [str] is a list of Unicode code points ([N]); [len] is
      [length].  Literals are written with [lit "..."].
    - A Python [int] is a [Z]; a [dict] is an association list in insertion
      order (keys of a decoded JSON document are strings and pairwise
      distinct, see [wf_json]).
    - A Python [float] is represented by what [float.__repr__] prints from:
      sign, shortest round-tripping decimal digits, and decimal point
      position; the three non-finite values are separate constructors. *)

From Stdlib Require Import String Ascii DecimalString.
From Stdlib Require Import ZArith NArith Bool Lia.
From Stdlib Require Import List Permutation.
Import ListNotations.

Local Open Scope Z_scope.

(** ** Python strings *)

Definition str : Type := list N.

Definition lit (s : string) : str := map N_of_ascii (list_ascii_of_string s).

(** Line feed, double quote, backslash and space. *)
Definition nl : N := 10%N.
Definition dquote : N := 34%N.
Definition bslash : N := 92%N.
Definition space : N := 32%N.

Definition str_eqb (a b : str) : bool :=
  if list_eq_dec N.eq_dec a b then true else false.

(** [key in [k1, k2, ...]] on strings. *)
Definition str_in (k : str) (l : list str) : bool := existsb (str_eqb k) l.

(** [s * n]: repetition; a count that is zero or negative gives [''] . *)
Definition str_mul (s : str) (n : Z) : str := concat (repeat s (Z.to_nat n)).

(** [sep.join(parts)] *)
Fixpoint join (sep : str) (parts : list str) : str :=
  match parts with
  | [] => []
  | x :: rest =>
      match rest with
      | [] => x
      | _ :: _ => x ++ sep ++ join sep rest
      end
  end.

(** [len(s)] as a Python integer. *)
Definition len {A : Type} (l : list A) : Z := Z.of_nat (length l).

(** ** JSON values, as [json.load] builds them *)

Inductive pyfloat : Type :=
| FNan
| FInf (negative : bool)
| FFinite (negative : bool) (digits : Decimal.uint) (decpt : Z).

#[local] Unset Elimination Schemes.
Inductive json : Type :=
| JNull
| JBool (b : bool)
| JInt (n : Z)
| JFloat (f : pyfloat)
| JStr (s : str)
| JList (items : list json)
| JDict (items : list (str * json)).
#[local] Set Elimination Schemes.

(** [isinstance(obj, (str, int, float, bool, type(None)))] *)
Definition is_scalar (obj : json) : bool :=
  match obj with
  | JList _ | JDict _ => false
  | _ => true
  end.

(** Nesting depth of a value: the number of Python frames a recursive
    descent needs. *)
Fixpoint json_depth (obj : json) : nat :=
  match obj with
  | JList items => S (fold_right (fun x m => Nat.max (json_depth x) m) 0%nat items)
  | JDict d => S (fold_right (fun kv m => Nat.max (json_depth (snd kv)) m) 0%nat d)
  | _ => 1%nat
  end.

(** Keys of every dictionary are pairwise distinct (a Python [dict]). *)
Fixpoint wf_json (obj : json) : Prop :=
  match obj with
  | JList items => fold_right (fun x P => wf_json x /\ P) True items
  | JDict d =>
      NoDup (map fst d) /\ fold_right (fun kv P => wf_json (snd kv) /\ P) True d
  | _ => True
  end.

(** ** [json.dumps] *)

Module Json.

(** [int.__repr__] *)
Definition int_repr (n : Z) : str := lit (NilZero.string_of_int (Z.to_int n)).

Definition zeros (n : Z) : str := str_mul (lit "0") n.

(** Two or more digits of the exponent, as C's [%+.02d] without the sign. *)
Definition exp_digits (e : Z) : str :=
  let s := int_repr (Z.abs e) in
  if len s <? 2 then lit "0" ++ s else s.

(** [float.__repr__] on a finite float (format code ['r'], with ['.0']
    added to an integral mantissa): decimal notation when
    [-4 < decpt <= 16], exponent notation otherwise. *)
Definition float_repr_finite (negative : bool) (digits : Decimal.uint) (decpt : Z) : str :=
  let ds := lit (NilEmpty.string_of_uint digits) in
  let sign := if negative then lit "-" else [] in
  let body :=
    if (decpt <=? -4) || (decpt >? 16) then
      match ds with
      | [] => lit "e" ++ (if decpt - 1 <? 0 then lit "-" else lit "+") ++ exp_digits (decpt - 1)
      | d :: rest =>
          [d] ++ (match rest with [] => [] | _ :: _ => lit "." ++ rest end)
              ++ lit "e" ++ (if decpt - 1 <? 0 then lit "-" else lit "+")
              ++ exp_digits (decpt - 1)
      end
    else if decpt <=? 0 then
      lit "0." ++ zeros (- decpt) ++ ds
    else if len ds <=? decpt then
      ds ++ zeros (decpt - len ds) ++ lit ".0"
    else
      firstn (Z.to_nat decpt) ds ++ lit "." ++ skipn (Z.to_nat decpt) ds
  in sign ++ body.

(** [floatstr] of [json.encoder] with [allow_nan=True]. *)
Definition floatstr (f : pyfloat) : str :=
  match f with
  | FNan => lit "NaN"
  | FInf false => lit "Infinity"
  | FInf true => lit "-Infinity"
  | FFinite s ds e => float_repr_finite s ds e
  end.

Definition hex_digit (d : N) : N :=
  (if d <? 10 then 48 + d else 87 + d)%N.

(** ['{0:04x}'.format(n)] for [n < 0x10000]. *)
Definition hex4 (n : N) : str :=
  [hex_digit ((n / 4096) mod 16); hex_digit ((n / 256) mod 16);
   hex_digit ((n / 16) mod 16); hex_digit (n mod 16)]%N.

(** The replacement [py_encode_basestring_ascii] makes for one character:
    characters in [' '..'~'] other than the quote and the backslash stay. *)
Definition escape_char (c : N) : str :=
  (if c =? 92 then [bslash; bslash]
   else if c =? 34 then [bslash; dquote]
   else if (32 <=? c) && (c <=? 126) then [c]
   else if c =? 8 then bslash :: lit "b"
   else if c =? 12 then bslash :: lit "f"
   else if c =? 10 then bslash :: lit "n"
   else if c =? 13 then bslash :: lit "r"
   else if c =? 9 then bslash :: lit "t"
   else if c <? 65536 then bslash :: lit "u" ++ hex4 c
   else
     let n := c - 65536 in
     let s1 := N.lor 55296 (N.land (N.shiftr n 10) 1023) in
     let s2 := N.lor 56320 (N.land n 1023) in
     bslash :: lit "u" ++ hex4 s1 ++ bslash :: lit "u" ++ hex4 s2)%N.

(** [py_encode_basestring_ascii] *)
Definition encode_basestring_ascii (s : str) : str :=
  [dquote] ++ flat_map escape_char s ++ [dquote].

(** [json.dumps(o, separators=(item_sep, key_sep))] (all other options at
    their defaults: [ensure_ascii=True], [allow_nan=True], [indent=None],
    [sort_keys=False]). *)
Fixpoint dumps (item_sep key_sep : str) (o : json) : str :=
  match o with
  | JNull => lit "null"
  | JBool true => lit "true"
  | JBool false => lit "false"
  | JInt n => int_repr n
  | JFloat f => floatstr f
  | JStr s => encode_basestring_ascii s
  | JList items =>
      match items with
      | [] => lit "[]"
      | _ :: _ => lit "[" ++ join item_sep (map (dumps item_sep key_sep) items) ++ lit "]"
      end
  | JDict d =>
      match d with
      | [] => lit "{}"
      | _ :: _ =>
          lit "{"
          ++ join item_sep
               (map (fun kv => encode_basestring_ascii (fst kv) ++ key_sep
                               ++ dumps item_sep key_sep (snd kv)) d)
          ++ lit "}"
      end
  end.

(** [json.dumps(o)]: the default separators are [(', ', ': ')]. *)
Definition dumps_default (o : json) : str := dumps (lit ", ") (lit ": ") o.

End Json.

(** ** The class [SemiBeautifier] *)

Record SemiBeautifier : Type := {
  max_inline_length : Z;
  max_inline_items : Z;
  indent_str : str
}.

(** [__init__(self, max_inline_length=80, max_inline_items=3, indent=4)] *)
Definition init (max_inline_length max_inline_items indent : Z) : SemiBeautifier :=
  {| max_inline_length := max_inline_length;
     max_inline_items := max_inline_items;
     indent_str := str_mul [space] indent |}.

Definition default_config : SemiBeautifier := init 80 3 4.

(** The configurations the interface admits: a positive line width, and
    non-negative item count and indentation width. *)
Definition valid_config (self : SemiBeautifier) : Prop :=
  0 < max_inline_length self /\ 0 <= max_inline_items self /\
  exists indent, 0 <= indent /\ indent_str self = str_mul [space] indent.

(** The list of line 33. *)
Definition jsonlogic_operators : list str :=
  [lit "var"; lit "=="; lit "!="; lit ">"; lit "<"; lit ">="; lit "<=";
   lit "in"; lit "cat"; lit "substr"].

(** The estimate of lines 46 and 59:
    [len(json.dumps(obj, separators=(',', ':')))]. *)
Definition estimated_length (obj : json) : Z :=
  len (Json.dumps (lit ",") (lit ":") obj).

(** [should_inline], lines 22-62.  The two [for] loops that return [False]
    at the first child that is not inline are [forallb]. *)
Fixpoint should_inline (self : SemiBeautifier) (obj : json) : bool :=
  match obj with
  | JDict d =>
      let size_constraints :=
        if len d >? max_inline_items self then false
        else if negb (forallb (fun kv => should_inline self (snd kv)) d) then false
        else estimated_length obj <=? max_inline_length self in
      match d with
      | [(key, value)] =>
          if str_in key jsonlogic_operators then should_inline self value
          else size_constraints
      | _ => size_constraints
      end
  | JList items =>
      if len items >? max_inline_items self then false
      else if negb (forallb (should_inline self) items) then false
      else estimated_length obj <=? max_inline_length self
  | _ => true
  end.

(** *** The layouts of [format_value] *)

(** The loop of lines 88-92 (and 99-103) over the already formatted items:
    every item on its own line after [next_indent], a comma after all but
    the last. *)
Definition bracket_lines (next_indent : str) (formatted : list str) (result : str) : str :=
  fold_left
    (fun result (ix : nat * str) =>
       let result := result ++ next_indent ++ snd ix in
       let result :=
         if Z.of_nat (fst ix) <? len formatted - 1 then result ++ lit "," else result in
       result ++ [nl])
    (combine (seq 0 (length formatted)) formatted)
    result.

(** Lines 87-94 and 98-105: an opening brace, the quoted key and an opening
    bracket on one line, the items, and the closing bracket and brace after
    [indent]. *)
Definition bracket_layout (indent next_indent key : str) (formatted : list str) : str :=
  bracket_lines next_indent formatted
    (lit "{ " ++ [dquote] ++ key ++ [dquote] ++ lit ": [" ++ [nl])
  ++ indent ++ lit "]}".

(** Lines 108-113: the regular object layout.  The key goes between two
    quotes as it is. *)
Definition regular_layout (indent next_indent : str) (formatted : list (str * str)) : str :=
  let items :=
    map (fun kv => next_indent ++ [dquote] ++ fst kv ++ [dquote] ++ lit ": " ++ snd kv)
        formatted in
  lit "{" ++ [nl] ++ join (lit "," ++ [nl]) items ++ [nl] ++ indent ++ lit "}".

(** Lines 126-130: the multi-line array layout. *)
Definition multiline_layout (indent next_indent : str) (formatted : list str) : str :=
  let items := map (fun item => next_indent ++ item) formatted in
  lit "[" ++ [nl] ++ join (lit "," ++ [nl]) items ++ [nl] ++ indent ++ lit "]".

(** [format_value], lines 64-132. *)
Fixpoint format_value (self : SemiBeautifier) (obj : json) (depth : Z) {struct obj} : str :=
  let indent := str_mul (indent_str self) depth in
  let next_indent := str_mul (indent_str self) (depth + 1) in
  if is_scalar obj then Json.dumps_default obj
  else if should_inline self obj then Json.dumps (lit ", ") (lit ": ") obj
  else
    match obj with
    | JDict d =>
        let regular :=
          regular_layout indent next_indent
            (map (fun kv => (fst kv, format_value self (snd kv) (depth + 1))) d) in
        match d with
        | [] => lit "{}"
        | [(key, value)] =>
            match value with
            | JList items =>
                let formatted := map (fun item => format_value self item (depth + 1)) items in
                if str_eqb key (lit "if") && (len items >=? 2) then
                  bracket_layout indent next_indent (lit "if") formatted
                else if str_in key [lit "and"; lit "or"] && (len items >? 2) then
                  bracket_layout indent next_indent key formatted
                else regular
            | _ => regular
            end
        | _ => regular
        end
    | JList items =>
        match items with
        | [] => lit "[]"
        | _ :: _ =>
            let simple_format := Json.dumps (lit ", ") (lit ": ") obj in
            if forallb is_scalar items && (len simple_format <=? max_inline_length self)
            then simple_format
            else
              multiline_layout indent next_indent
                (map (fun item => format_value self item (depth + 1)) items)
        end
    | _ => Json.dumps_default obj
    end.

(** [beautify], lines 134-136. *)
Definition beautify (self : SemiBeautifier) (data : json) : str :=
  format_value self data 0.

(** ** [should_inline] as Python runs it

    The same method with what can go wrong at run time made explicit.

    - Every call of [should_inline] takes one frame of the interpreter's
      stack; the builtin functions and [json.dumps] it calls need frames
      too while they run.  A call that finds fewer frames left than it
      needs raises [RecursionError].
    - [json.dumps] raises [ValueError] on an integer with more decimal
      digits than the interpreter converts to text
      ([sys.get_int_max_str_digits()], 4300 unless changed; 0 for no
      limit).
    - [next(iter(obj))] raises [StopIteration] on an empty dictionary and
      [obj[key]] raises [KeyError] on a key that is absent.

    How many frames a builtin or the encoder needs differs between
    versions of CPython, so these figures, with the digit limit, are
    fields of a record [Interpreter], and the statements hold for every
    such record. *)

Inductive exn : Type := RecursionError | StopIteration | KeyError | ValueError.

Inductive result (A : Type) : Type :=
| Ok (a : A)
| Raise (e : exn).
Arguments Ok {A} a.
Arguments Raise {A} e.

Definition bind {A B : Type} (m : result A) (k : A -> result B) : result B :=
  match m with
  | Ok a => k a
  | Raise e => Raise e
  end.

Notation "x <- m ;; k" := (bind m (fun x => k))
  (at level 61, m at next level, right associativity).

Record Interpreter : Type := {
  (* frames for [isinstance] with a tuple of classes (line 24) *)
  isinstance_frames : nat;
  (* frames for any other builtin of the method: [isinstance] with one
     class, [len], [iter], [next], [dict.values], a comparison *)
  builtin_frames : nat;
  (* frames for [json.dumps] down to the call of its encoder *)
  dumps_frames : nat;
  (* frames the encoder takes for each list or dictionary it enters *)
  encoder_frames : nat;
  (* [sys.get_int_max_str_digits()] *)
  int_max_str_digits : Z
}.

(** An interpreter with the default digit limit of CPython.  The frame
    figures are of the order found in CPython 3.11; the examples leave a
    wide margin and do not depend on them. *)
Definition cpython : Interpreter :=
  {| isinstance_frames := 2; builtin_frames := 1; dumps_frames := 4;
     encoder_frames := 1; int_max_str_digits := 4300 |}.

(** The same interpreter after [sys.set_int_max_str_digits(0)]. *)
Definition cpython_no_digit_limit : Interpreter :=
  {| isinstance_frames := 2; builtin_frames := 1; dumps_frames := 4;
     encoder_frames := 1; int_max_str_digits := 0 |}.

(** An operation that needs [frames] frames when [budget] are left. *)
Definition primitive (frames budget : nat) : result unit :=
  if (budget <? frames)%nat then Raise RecursionError else Ok tt.

(** The integer has no more decimal digits than the interpreter converts. *)
Definition int_fits (it : Interpreter) (n : Z) : bool :=
  (int_max_str_digits it <=? 0) || (Z.abs n <? 10 ^ int_max_str_digits it).

(** The first exception of a sequence of steps. *)
Fixpoint all_ok (steps : list (result unit)) : result unit :=
  match steps with
  | [] => Ok tt
  | step :: rest => u <- step ;; all_ok rest
  end.

(** What the encoder of [json.dumps] can raise while it walks the value,
    items and entries in order. *)
Fixpoint encoder (it : Interpreter) (budget : nat) (o : json) : result unit :=
  match o with
  | JInt n => if int_fits it n then Ok tt else Raise ValueError
  | JList items =>
      u <- primitive (encoder_frames it) budget ;;
      all_ok (map (encoder it (budget - encoder_frames it)) items)
  | JDict d =>
      u <- primitive (encoder_frames it) budget ;;
      all_ok (map (fun kv => encoder it (budget - encoder_frames it) (snd kv)) d)
  | _ => Ok tt
  end.

(** [json.dumps(o, separators=(item_sep, key_sep))] with [budget] frames
    left. *)
Definition call_dumps (it : Interpreter) (budget : nat) (item_sep key_sep : str)
  (o : json) : result str :=
  u <- primitive (dumps_frames it) budget ;;
  v <- encoder it (budget - dumps_frames it) o ;;
  Ok (Json.dumps item_sep key_sep o).

(** [next(iter(obj))] *)
Definition next_iter (d : list (str * json)) : result str :=
  match d with
  | [] => Raise StopIteration
  | kv :: _ => Ok (fst kv)
  end.

(** [obj[key]] *)
Definition getitem (d : list (str * json)) (key : str) : result json :=
  match find (fun kv => str_eqb (fst kv) key) d with
  | Some kv => Ok (snd kv)
  | None => Raise KeyError
  end.

(** [for v in vs: if not call(v): return False]; the result says whether the
    loop ran to its end. *)
Fixpoint loop_all_inline (call : json -> result bool) (vs : list json) : result bool :=
  match vs with
  | [] => Ok true
  | v :: rest =>
      b <- call v ;;
      if negb b then Ok false else loop_all_inline call rest
  end.

(** Lines 36-47, and again lines 50-60: the size constraints on a container
    [obj] with the children [values], [call] being the recursive call. *)
Definition call_size_constraints (it : Interpreter) (budget : nat)
  (self : SemiBeautifier) (call : json -> result bool) (obj : json)
  (values : list json) : result bool :=
  if len values >? max_inline_items self then Ok false
  else
    all <- loop_all_inline call values ;;
    if negb all then Ok false
    else
      text <- call_dumps it budget (lit ",") (lit ":") obj ;;
      Ok (len text <=? max_inline_length self).

(** A call of [should_inline] that finds [budget] frames left. *)
Fixpoint call_should_inline (it : Interpreter) (budget : nat) (self : SemiBeautifier)
  (obj : json) : result bool :=
  match budget with
  | O => Raise RecursionError
  | S budget =>
      u <- primitive (isinstance_frames it) budget ;;
      if is_scalar obj then Ok true
      else
        v <- primitive (builtin_frames it) budget ;;
        match obj with
        | JDict d =>
            operation <-
              (if len d =? 1 then
                 key <- next_iter d ;;
                 value <- getitem d key ;;
                 if str_in key jsonlogic_operators then
                   b <- call_should_inline it budget self value ;; Ok (Some b)
                 else Ok None
               else Ok None) ;;
            match operation with
            | Some b => Ok b
            | None =>
                call_size_constraints it budget self (call_should_inline it budget self)
                  obj (map snd d)
            end
        | JList items =>
            call_size_constraints it budget self (call_should_inline it budget self)
              obj items
        | _ => Ok false
        end
  end.

(** Every integer of the value, at any depth, fits the digit limit. *)
Fixpoint ints_fit (it : Interpreter) (obj : json) : bool :=
  match obj with
  | JInt n => int_fits it n
  | JList items => forallb (ints_fit it) items
  | JDict d => forallb (fun kv => ints_fit it (snd kv)) d
  | _ => true
  end.

(** A number of frames that is enough for a call on the value: for each
    level of nesting one frame for the call and what the encoder takes, and
    what the builtins and [json.dumps] need on top. *)
Definition enough_frames (it : Interpreter) (obj : json) : nat :=
  json_depth obj * (1 + encoder_frames it)
  + isinstance_frames it + builtin_frames it + dumps_frames it.

(** The list of one item that holds the integer ten to the power 4300, the
    least integer with 4301 digits. *)
Definition huge_int_list : json := JList [JInt (10 ^ 4300)].

(** ** Auxiliary definitions of the statements *)

(** The string ends with a line feed. *)
Definition ends_with_newline (s : str) : Prop := exists prefix, s = prefix ++ [nl].

(** The string has a last character, and it is not a line feed. *)
Definition ends_without_newline (s : str) : Prop :=
  exists prefix c, s = prefix ++ [c] /\ c <> nl.

(** No character of the string is a line feed. *)
Definition no_newline (s : str) : Prop := Forall (fun c => c <> nl) s.

(** The number of item and key separators [json.dumps] writes for a value:
    one key separator per dictionary entry, one item separator between two
    neighbours of a container. *)
Fixpoint separators (obj : json) : nat :=
  match obj with
  | JList items =>
      Nat.pred (length items) + fold_right (fun x n => separators x + n)%nat 0%nat items
  | JDict d =>
      Nat.pred (length d) + length d
      + fold_right (fun kv n => separators (snd kv) + n)%nat 0%nat d
  | _ => 0
  end%nat.

(** A dictionary that lines 29-33 recognise as a JSONLogic operation. *)
Definition is_operation (d : list (str * json)) : bool :=
  match d with
  | [(key, _)] => str_in key jsonlogic_operators
  | _ => false
  end.

(** The containers that reach the size constraints of lines 36-47 and
    50-60: every list, and every dictionary that is not an operation. *)
Definition size_constrained (obj : json) : bool :=
  match obj with
  | JList _ => true
  | JDict d => negb (is_operation d)
  | _ => false
  end.

(** The items of a list, the values of a dictionary. *)
Definition children (obj : json) : list json :=
  match obj with
  | JList items => items
  | JDict d => map snd d
  | _ => []
  end.

(** ** Values used in examples *)

(** A text between two double quotes. *)
Definition quoted (s : str) : str := [dquote] ++ s ++ [dquote].

Definition ints (l : list Z) : json := JList (map JInt l).

(** [{"var": "x"}] *)
Definition var_x : json := JDict [(lit "var", JStr (lit "x"))].

(** A key that closes its own quotes: the letter a, a double quote, the
    text [: [1, 2, 3, 4],], a line feed, four spaces, a double quote and
    the letter b. *)
Definition injected_key : str :=
  lit "a" ++ [dquote] ++ lit ": [1, 2, 3, 4]," ++ [nl] ++ lit "    " ++ [dquote] ++ lit "b".

Definition two_entries : json :=
  JDict [(lit "a", ints [1; 2; 3; 4]); (lit "b", ints [1; 2; 3; 4])].

Definition one_entry : json := JDict [(injected_key, ints [1; 2; 3; 4])].

(** A dictionary with the one key a, double quote, b, as the JSON text
    [{"a\u0022b": [1, 2, 3, 4]}] decodes. *)
Definition quote_key : json :=
  JDict [(lit "a" ++ [dquote] ++ lit "b", ints [1; 2; 3; 4])].

(** ** Auxiliary definitions of the further statements *)

(** The four whitespace characters of JSON: space, line feed, carriage
    return and tab. *)
Definition is_ws (c : N) : bool :=
  ((c =? 32) || (c =? 10) || (c =? 13) || (c =? 9))%N.

(** Where a reader of a JSON text is: between tokens, inside a string
    literal, or right after a backslash inside a string literal. *)
Inductive lexer_state : Type := Outside | InString | Escaped.

(** The text without the whitespace that stands outside string literals. *)
Fixpoint squeeze_from (st : lexer_state) (s : str) : str :=
  match s with
  | [] => []
  | c :: rest =>
      match st with
      | Outside =>
          if is_ws c then squeeze_from Outside rest
          else c :: squeeze_from (if (c =? 34)%N then InString else Outside) rest
      | InString =>
          c :: squeeze_from (if (c =? 92)%N then Escaped
                             else if (c =? 34)%N then Outside else InString) rest
      | Escaped => c :: squeeze_from InString rest
      end
  end.

Definition squeeze (s : str) : str := squeeze_from Outside s.

(** The text with [unit] inserted after each of its line feeds. *)
Definition reindent (unit s : str) : str :=
  flat_map (fun c => if (c =? 10)%N then nl :: unit else [c]) s.

(** The characters [json.dumps] leaves as they are inside a string: the
    printable ASCII characters other than the double quote and the
    backslash. *)
Definition plain_char (c : N) : bool :=
  ((32 <=? c) && (c <=? 126) && negb (c =? 34) && negb (c =? 92))%N.

Definition plain_key (k : str) : bool := forallb plain_char k.

(** A key without a line feed. *)
Definition single_line_key (k : str) : bool := negb (existsb (N.eqb nl) k).

(** Every key of every dictionary of the value satisfies [p]. *)
Fixpoint all_keys (p : str -> bool) (obj : json) : bool :=
  match obj with
  | JList items => forallb (all_keys p) items
  | JDict d => forallb (fun kv => p (fst kv) && all_keys p (snd kv)) d
  | _ => true
  end.

(** [inside sub obj]: [sub] is [obj] or occurs in it, at any depth, as an
    item of a list or a value of a dictionary. *)
Inductive inside (sub : json) : json -> Prop :=
| inside_here : inside sub sub
| inside_item (x : json) (items : list json) :
    In x items -> inside sub x -> inside sub (JList items)
| inside_value (kv : str * json) (d : list (str * json)) :
    In kv d -> inside sub (snd kv) -> inside sub (JDict d).

(** The branches of [format_value] that return one of the three layouts
    (lines 87-94, 98-105, 108-113 and 126-130): the value is a non-empty
    container that is not inline and is not a list of scalars whose spaced
    form fits in [max_inline_length]. *)
Definition uses_layout (self : SemiBeautifier) (obj : json) : bool :=
  negb (should_inline self obj) &&
  match obj with
  | JDict d => match d with [] => false | _ :: _ => true end
  | JList items =>
      match items with
      | [] => false
      | _ :: _ =>
          negb (forallb is_scalar items
                && (len (Json.dumps (lit ", ") (lit ": ") obj) <=? max_inline_length self))
      end
  | _ => false
  end.

(** The characters of which [json.dumps] writes numbers. *)
Definition number_alphabet : str := lit "0123456789-+.eInfityNa".

Definition number_char (c : N) : Prop := existsb (N.eqb c) number_alphabet = true.

(** * Properties *)

(** ** Induction on JSON values *)

Lemma json_ind (P : json -> Prop)
  (Hnull : P JNull)
  (Hbool : forall b, P (JBool b))
  (Hinteger : forall n, P (JInt n))
  (Hfloat : forall f, P (JFloat f))
  (Hstr : forall s, P (JStr s))
  (Hlist : forall items, Forall P items -> P (JList items))
  (Hdict : forall d, Forall (fun kv => P (snd kv)) d -> P (JDict d)) :
  forall obj, P obj.
Proof.
  fix IH 1.
  intros [ | b | n | f | s | items | d ].
  - exact Hnull.
  - apply Hbool.
  - apply Hinteger.
  - apply Hfloat.
  - apply Hstr.
  - apply Hlist. induction items as [ | x items IHitems ].
    + constructor.
    + constructor; [apply IH | exact IHitems].
  - apply Hdict. induction d as [ | kv d IHd ].
    + constructor.
    + constructor; [apply IH | exact IHd].
Qed.

(** ** Strings *)

Lemma str_eqb_eq (a b : str) : str_eqb a b = true <-> a = b.
Proof.
  unfold str_eqb. destruct (list_eq_dec N.eq_dec a b); split; congruence.
Qed.

Lemma str_in_In (k : str) (l : list str) : str_in k l = true <-> In k l.
Proof.
  unfold str_in. rewrite existsb_exists. split.
  - intros (x & Hx & Heq). apply str_eqb_eq in Heq. now subst.
  - intros Hin. exists k. split; [assumption | now apply str_eqb_eq].
Qed.


Lemma join_length (sep : str) (parts : list str) :
  length (join sep parts)
  = (list_sum (map (@length N) parts) + Nat.pred (length parts) * length sep)%nat.
Proof.
  induction parts as [ | x rest IH ]; [reflexivity | ].
  destruct rest as [ | y rest ].
  - simpl. lia.
  - change (join sep (x :: y :: rest)) with (x ++ sep ++ join sep (y :: rest)).
    rewrite !length_app, IH. simpl. lia.
Qed.

(** ** Lengths of the two encodings *)

Lemma list_items_length (s1 k1 s2 k2 : str) (items : list json) :
  Forall (fun x => length (Json.dumps s1 k1 x)
                   = (length (Json.dumps s2 k2 x) + separators x)%nat) items ->
  list_sum (map (@length N) (map (Json.dumps s1 k1) items))
  = (list_sum (map (@length N) (map (Json.dumps s2 k2) items))
     + fold_right (fun x n => separators x + n) 0 items)%nat.
Proof.
  induction 1 as [ | x items Hx _ IH ]; [reflexivity | ].
  unfold list_sum in *. cbn [map fold_right]. rewrite Hx, IH. lia.
Qed.

Lemma dict_items_length (s1 k1 s2 k2 : str) (d : list (str * json)) :
  length k1 = S (length k2) ->
  Forall (fun kv => length (Json.dumps s1 k1 (snd kv))
                    = (length (Json.dumps s2 k2 (snd kv)) + separators (snd kv))%nat) d ->
  list_sum (map (@length N)
              (map (fun kv => Json.encode_basestring_ascii (fst kv) ++ k1
                              ++ Json.dumps s1 k1 (snd kv)) d))
  = (list_sum (map (@length N)
                 (map (fun kv => Json.encode_basestring_ascii (fst kv) ++ k2
                                 ++ Json.dumps s2 k2 (snd kv)) d))
     + length d + fold_right (fun kv n => separators (snd kv) + n) 0 d)%nat.
Proof.
  intros Hk. induction 1 as [ | kv d Hkv _ IH ]; [reflexivity | ].
  unfold list_sum in *. cbn [map fold_right length].
  rewrite IH, !length_app, Hkv, Hk. lia.
Qed.

(** The spaced form is longer than the compact form by one character for
    every separator. *)
Lemma spaced_length (obj : json) :
  length (Json.dumps (lit ", ") (lit ": ") obj)
  = (length (Json.dumps (lit ",") (lit ":") obj) + separators obj)%nat.
Proof.
  induction obj as [ | b | n | f | s | items IH | d IH ] using json_ind;
    try (simpl; lia).
  - destruct items as [ | x items ]; [reflexivity | ].
    cbn [Json.dumps separators]. rewrite !length_app, !join_length, !length_map.
    rewrite (list_items_length (lit ", ") (lit ": ") (lit ",") (lit ":") _ IH).
    cbn [lit length map list_ascii_of_string]. simpl length. lia.
  - destruct d as [ | kv d ]; [reflexivity | ].
    cbn [Json.dumps separators]. rewrite !length_app, !join_length, !length_map.
    rewrite (dict_items_length (lit ", ") (lit ": ") (lit ",") (lit ":") _ eq_refl IH).
    simpl length. lia.
Qed.

(** ** The renderer on concrete documents *)

(** C2 (as the code behaves).  For [[1, 2, 3, 4, 5]] under the default
    configuration [should_inline] is false, since 5 items exceed
    [max_inline_items = 3]; [format_value] nevertheless keeps the array on
    one line, as [[1, 2, 3, 4, 5]]: all its items are scalars and the spaced
    form, 15 characters long, fits in [max_inline_length = 80] (lines
    119-123). *)
Theorem five_integers_one_line :
  should_inline default_config (ints [1; 2; 3; 4; 5]) = false /\
  format_value default_config (ints [1; 2; 3; 4; 5]) 0 = lit "[1, 2, 3, 4, 5]" /\
  ~ In nl (format_value default_config (ints [1; 2; 3; 4; 5]) 0).
Proof.
  split; [reflexivity | split; [reflexivity | ] ].
  vm_compute. intuition discriminate.
Qed.

(** C2 as the specification words it fails: the rendering of
    [[1, 2, 3, 4, 5]] under the default configuration is not the multi-line
    layout with one integer per line. *)
Lemma five_integers_not_multiline :
  ~ (should_inline default_config (ints [1; 2; 3; 4; 5]) = false /\
     format_value default_config (ints [1; 2; 3; 4; 5]) 0
     = multiline_layout [] (lit "    ") [lit "1"; lit "2"; lit "3"; lit "4"; lit "5"]).
Proof.
  intros [_ H]. vm_compute in H. discriminate H.
Qed.

(** C3.  A dictionary whose only key is one of the JSONLogic operators is
    inline exactly when its value is, whatever the configuration: neither
    the item count nor the estimated length of the dictionary is looked at.
    In particular [{"var": "x"}] is inline and is rendered in the spaced
    form [{"var": "x"}] under every configuration and at every depth. *)
Theorem operator_shorthand_inline (self : SemiBeautifier) (key : str) (value : json)
  (depth : Z) :
  In key jsonlogic_operators ->
  should_inline self (JDict [(key, value)]) = should_inline self value /\
  should_inline self var_x = true /\
  format_value self var_x depth
  = lit "{" ++ quoted (lit "var") ++ lit ": " ++ quoted (lit "x") ++ lit "}".
Proof.
  intros Hkey. apply str_in_In in Hkey. split; [ | split ].
  - cbn [should_inline]. now rewrite Hkey.
  - reflexivity.
  - reflexivity.
Qed.

Lemma operator_shorthand_inline_witness :
  In (lit "==") jsonlogic_operators /\
  should_inline (init 5 0 4) (JDict [(lit "==", ints [1; 2])])
  = should_inline (init 5 0 4) (ints [1; 2]).
Proof.
  assert (H : In (lit "==") jsonlogic_operators) by (vm_compute; tauto).
  split; [exact H | ].
  exact (proj1 (operator_shorthand_inline (init 5 0 4) (lit "==") (ints [1; 2]) 0 H)).
Defined.

(** C6.  Under every configuration with [max_inline_length >= 2] and
    [max_inline_items >= 0], the empty dictionary and the empty list are
    inline and are rendered [{}] and [[]] at every depth. *)
Theorem empty_containers (self : SemiBeautifier) (depth : Z) :
  2 <= max_inline_length self ->
  0 <= max_inline_items self ->
  should_inline self (JDict []) = true /\
  should_inline self (JList []) = true /\
  format_value self (JDict []) depth = lit "{}" /\
  format_value self (JList []) depth = lit "[]".
Proof.
  intros Hlen Hitems.
  assert (Hd : should_inline self (JDict []) = true).
  { cbn. destruct (Z.gtb_spec 0 (max_inline_items self)); [lia | ].
    apply Z.leb_le. exact Hlen. }
  assert (Hl : should_inline self (JList []) = true).
  { cbn. destruct (Z.gtb_spec 0 (max_inline_items self)); [lia | ].
    apply Z.leb_le. exact Hlen. }
  repeat split; try assumption.
  - cbn [format_value is_scalar]. now rewrite Hd.
  - cbn [format_value is_scalar]. now rewrite Hl.
Qed.

Lemma empty_containers_witness :
  format_value default_config (JDict []) 3 = lit "{}" /\
  format_value default_config (JList []) 3 = lit "[]".
Proof.
  assert (H1 : 2 <= max_inline_length default_config) by (vm_compute; discriminate).
  assert (H2 : 0 <= max_inline_items default_config) by (vm_compute; discriminate).
  exact (proj2 (proj2 (empty_containers default_config 3 H1 H2))).
Defined.

(** The two texts do not depend on the thresholds at all. *)
Lemma empty_containers_any_config (self : SemiBeautifier) (depth : Z) :
  format_value self (JDict []) depth = lit "{}" /\
  format_value self (JList []) depth = lit "[]".
Proof.
  split; cbn [format_value is_scalar].
  - destruct (should_inline self (JDict [])); reflexivity.
  - destruct (should_inline self (JList [])); reflexivity.
Qed.

(** C10.  The classifier measures the compact encoding while the renderer
    writes the spaced one, which has one more character per separator; so a
    value can be inline and its one-line rendering longer than
    [max_inline_length].  [[1, 2, 3]] with [max_inline_length = 7] is such a
    value: 7 characters compact, 9 characters as rendered. *)
Theorem inline_rendering_exceeds_length :
  (forall obj, len (Json.dumps (lit ", ") (lit ": ") obj)
               = estimated_length obj + Z.of_nat (separators obj)) /\
  exists self obj,
    valid_config self /\
    should_inline self obj = true /\
    format_value self obj 0 = Json.dumps (lit ", ") (lit ": ") obj /\
    max_inline_length self < len (format_value self obj 0).
Proof.
  split.
  - intros obj. unfold estimated_length, len. rewrite spaced_length. lia.
  - exists (init 7 3 4), (ints [1; 2; 3]).
    split; [ | split; [reflexivity | split; [reflexivity | reflexivity] ] ].
    split; [reflexivity | split; [discriminate | ] ].
    exists 4. split; [discriminate | reflexivity].
Qed.

(** ** Keys in the regular object layout *)

(** What the default configuration renders for the dictionary with the one
    key a, double quote, b: the key is written between two quotes as it is
    (line 111), where [json.dumps] writes a backslash before the quote. *)
Lemma quote_key_rendering :
  wf_json quote_key /\
  should_inline default_config quote_key = false /\
  beautify default_config quote_key
  = lit "{" ++ [nl] ++ lit "    " ++ quoted (lit "a" ++ [dquote] ++ lit "b")
    ++ lit ": [1, 2, 3, 4]" ++ [nl] ++ lit "}" /\
  Json.dumps_default quote_key
  = lit "{" ++ quoted (lit "a" ++ [bslash; dquote] ++ lit "b")
    ++ lit ": [1, 2, 3, 4]}".
Proof.
  split; [ | split; [reflexivity | split; reflexivity] ].
  cbn. split; [ | tauto ].
  constructor; [intro H; destruct H | constructor].
Qed.

(** C1 fails on the code.  Two different documents, both with pairwise
    distinct keys, are rendered to the same text by [beautify] under the
    default configuration: a dictionary with the two entries a and b, and a
    dictionary with one entry whose key spells out the end of the first
    entry and the start of the second.  Hence no decoder whatsoever maps the
    output of [beautify] back to the document it was made from. *)
Theorem beautify_not_invertible :
  wf_json two_entries /\ wf_json one_entry /\ two_entries <> one_entry /\
  beautify default_config one_entry = beautify default_config two_entries /\
  forall parse : str -> option json,
    ~ (forall v, wf_json v -> parse (beautify default_config v) = Some v).
Proof.
  assert (Hwf2 : wf_json two_entries).
  { cbn. split; [ | tauto ].
    constructor; [ | constructor; [intro H; destruct H | constructor] ].
    intros [H | H]; [discriminate H | destruct H]. }
  assert (Hwf1 : wf_json one_entry).
  { cbn. split; [ | tauto ]. constructor; [intro H; destruct H | constructor]. }
  assert (Hneq : two_entries <> one_entry) by discriminate.
  assert (Heq : beautify default_config one_entry = beautify default_config two_entries)
    by reflexivity.
  split; [exact Hwf2 | split; [exact Hwf1 | split; [exact Hneq | split; [exact Heq | ] ] ] ].
  intros parse Hparse.
  pose proof (Hparse _ Hwf1) as H1. pose proof (Hparse _ Hwf2) as H2.
  rewrite Heq in H1. rewrite H1 in H2. injection H2 as H2. now apply Hneq.
Qed.

(** ** The classifier on containers *)

Lemma forallb_values (f : json -> bool) (d : list (str * json)) :
  forallb (fun kv => f (snd kv)) d = forallb f (map snd d).
Proof.
  induction d as [ | kv d IH ]; [reflexivity | ]. simpl. now rewrite IH.
Qed.

(** The three checks of lines 36-47 and 50-60 as one equation. *)
Lemma should_inline_size_constraints (self : SemiBeautifier) (obj : json) :
  size_constrained obj = true ->
  should_inline self obj =
    if len (children obj) >? max_inline_items self then false
    else if negb (forallb (should_inline self) (children obj)) then false
    else estimated_length obj <=? max_inline_length self.
Proof.
  destruct obj as [ | | | | | items | d ]; try discriminate; intros Hc.
  - reflexivity.
  - cbn [children]. unfold len at 1. rewrite length_map. fold (len d).
    rewrite <- forallb_values.
    destruct d as [ | [key value] [ | kv d ] ]; try reflexivity.
    cbn [size_constrained is_operation] in Hc. apply negb_true_iff in Hc.
    cbn [should_inline]. now rewrite Hc.
Qed.

(** C4.  For a list, and for a dictionary that is not a single-operator
    dictionary: [should_inline] is false when the number of items (keys)
    exceeds [max_inline_items]; it is false when some item (some value; keys
    do not count) is not inline; otherwise it is true exactly when the
    compact encoding of the whole container, written with the separators
    [,] and [:], has at most [max_inline_length] characters. *)
Theorem size_constraints (self : SemiBeautifier) (obj : json) :
  size_constrained obj = true ->
  (max_inline_items self < len (children obj) -> should_inline self obj = false) /\
  ((exists child, In child (children obj) /\ should_inline self child = false) ->
   should_inline self obj = false) /\
  (len (children obj) <= max_inline_items self ->
   (forall child, In child (children obj) -> should_inline self child = true) ->
   (should_inline self obj = true
    <-> len (Json.dumps (lit ",") (lit ":") obj) <= max_inline_length self)).
Proof.
  intros Hc. rewrite (should_inline_size_constraints self obj Hc).
  split; [ | split ].
  - intros Hcount.
    destruct (Z.gtb_spec (len (children obj)) (max_inline_items self)); [reflexivity | lia].
  - intros (child & Hin & Hchild).
    destruct (len (children obj) >? max_inline_items self); [reflexivity | ].
    assert (Hall : forallb (should_inline self) (children obj) = false).
    { apply not_true_is_false. intros Hall. rewrite forallb_forall in Hall.
      rewrite (Hall child Hin) in Hchild. discriminate Hchild. }
    now rewrite Hall.
  - intros Hcount Hchildren.
    destruct (Z.gtb_spec (len (children obj)) (max_inline_items self)); [lia | ].
    assert (Hall : forallb (should_inline self) (children obj) = true)
      by (apply forallb_forall; exact Hchildren).
    rewrite Hall. cbn [negb]. unfold estimated_length. apply Z.leb_le.
Qed.

Lemma size_constraints_witness :
  should_inline (init 7 3 4) (ints [1; 2; 3]) = true
  <-> len (Json.dumps (lit ",") (lit ":") (ints [1; 2; 3])) <= 7.
Proof.
  refine (proj2 (proj2 (size_constraints (init 7 3 4) (ints [1; 2; 3]) eq_refl)) _ _).
  - vm_compute. discriminate.
  - intros child Hin. cbn in Hin.
    destruct Hin as [<- | [<- | [<- | [] ] ] ]; reflexivity.
Defined.

(** ** The layouts for single-key dictionaries *)

Lemma fold_left_keeps_prefix {A : Type} (step : str -> A -> str) (l : list A) :
  (forall r x, exists t, step r x = r ++ t) ->
  forall r, exists t, fold_left step l r = r ++ t.
Proof.
  intros Hstep. induction l as [ | x l IH ]; intros r.
  - exists []. simpl. now rewrite app_nil_r.
  - simpl. destruct (Hstep r x) as [t1 Ht1]. destruct (IH (step r x)) as [t2 Ht2].
    exists (t1 ++ t2). rewrite Ht2, Ht1. now rewrite app_assoc.
Qed.

Lemma bracket_lines_prefix (next_indent : str) (formatted : list str) (result : str) :
  exists t, bracket_lines next_indent formatted result = result ++ t.
Proof.
  unfold bracket_lines. apply fold_left_keeps_prefix. intros r [i item]. cbn [fst snd].
  destruct (Z.of_nat i <? len formatted - 1).
  - exists (next_indent ++ item ++ lit "," ++ [nl]). now rewrite <- !app_assoc.
  - exists (next_indent ++ item ++ [nl]). now rewrite <- !app_assoc.
Qed.

(** The two layouts differ in their second character: a line feed in the
    regular layout, a space in the bracket layout. *)
Lemma regular_layout_not_bracket_layout
  (indent next_indent indent' next_indent' key : str)
  (entries : list (str * str)) (formatted : list str) :
  regular_layout indent next_indent entries
  <> bracket_layout indent' next_indent' key formatted.
Proof.
  unfold regular_layout, bracket_layout.
  destruct (bracket_lines_prefix next_indent' formatted
              (lit "{ " ++ [dquote] ++ key ++ [dquote] ++ lit ": [" ++ [nl])) as [t ->].
  cbn. intros H. discriminate H.
Qed.

Lemma and_or_not_if (key : str) :
  In key [lit "and"; lit "or"] ->
  str_eqb key (lit "if") = false /\ str_in key [lit "and"; lit "or"] = true.
Proof.
  intros Hkey. split; [ | now apply str_in_In ].
  destruct Hkey as [<- | [<- | [] ] ]; reflexivity.
Qed.

(** C5.  For a dictionary with the one key [and] or [or] that is not
    inline: when the value is a list of exactly two items, [format_value]
    uses the regular object layout, which is not the bracket layout (and
    so it does for every list of at most two items); the bracket layout is
    used when the list has more than two items.  For the key [if] the
    bracket layout is used from two items on. *)
Theorem and_or_two_items_regular (self : SemiBeautifier) (key : str) (a b : json)
  (items : list json) (depth : Z) :
  In key [lit "and"; lit "or"] ->
  (should_inline self (JDict [(key, JList [a; b])]) = false ->
   format_value self (JDict [(key, JList [a; b])]) depth
   = regular_layout (str_mul (indent_str self) depth)
       (str_mul (indent_str self) (depth + 1))
       [(key, format_value self (JList [a; b]) (depth + 1))]
   /\ format_value self (JDict [(key, JList [a; b])]) depth
      <> bracket_layout (str_mul (indent_str self) depth)
           (str_mul (indent_str self) (depth + 1)) key
           [format_value self a (depth + 1); format_value self b (depth + 1)]) /\
  (len items <= 2 ->
   should_inline self (JDict [(key, JList items)]) = false ->
   format_value self (JDict [(key, JList items)]) depth
   = regular_layout (str_mul (indent_str self) depth)
       (str_mul (indent_str self) (depth + 1))
       [(key, format_value self (JList items) (depth + 1))]) /\
  (2 < len items ->
   should_inline self (JDict [(key, JList items)]) = false ->
   format_value self (JDict [(key, JList items)]) depth
   = bracket_layout (str_mul (indent_str self) depth)
       (str_mul (indent_str self) (depth + 1)) key
       (map (fun item => format_value self item (depth + 1)) items)) /\
  (2 <= len items ->
   should_inline self (JDict [(lit "if", JList items)]) = false ->
   format_value self (JDict [(lit "if", JList items)]) depth
   = bracket_layout (str_mul (indent_str self) depth)
       (str_mul (indent_str self) (depth + 1)) (lit "if")
       (map (fun item => format_value self item (depth + 1)) items)).
Proof.
  intros Hkey.
  destruct (and_or_not_if key Hkey) as [Hif Hin].
  assert (Hregular :
    should_inline self (JDict [(key, JList [a; b])]) = false ->
    format_value self (JDict [(key, JList [a; b])]) depth
    = regular_layout (str_mul (indent_str self) depth)
        (str_mul (indent_str self) (depth + 1))
        [(key, format_value self (JList [a; b]) (depth + 1))]).
  { intros Hnot. cbn [format_value is_scalar]. rewrite Hnot, Hif, Hin. reflexivity. }
  split; [ | split; [ | split ] ].
  - intros Hnot. split; [now apply Hregular | ].
    rewrite (Hregular Hnot). apply regular_layout_not_bracket_layout.
  - intros Hlen Hnot. cbn [format_value is_scalar]. rewrite Hnot, Hif, Hin.
    destruct (Z.gtb_spec (len items) 2); [lia | reflexivity].
  - intros Hlen Hnot. cbn [format_value is_scalar]. rewrite Hnot, Hif, Hin.
    destruct (Z.gtb_spec (len items) 2); [reflexivity | lia].
  - intros Hlen Hnot. cbn [format_value is_scalar]. rewrite Hnot.
    change (str_eqb (lit "if") (lit "if")) with true.
    destruct (Z.geb_spec (len items) 2); [reflexivity | lia].
Qed.

Lemma and_or_two_items_regular_witness :
  format_value (init 10 3 2)
    (JDict [(lit "and", JList [JStr (lit "aaaaaaaa"); JStr (lit "bbbbbbbb")])]) 0
  = lit "{" ++ [nl] ++ lit "  " ++ quoted (lit "and") ++ lit ": [" ++ [nl]
    ++ lit "    " ++ quoted (lit "aaaaaaaa") ++ lit "," ++ [nl]
    ++ lit "    " ++ quoted (lit "bbbbbbbb") ++ [nl]
    ++ lit "  ]" ++ [nl] ++ lit "}".
Proof.
  assert (Hkey : In (lit "and") [lit "and"; lit "or"]) by (left; reflexivity).
  pose proof (and_or_two_items_regular (init 10 3 2) (lit "and")
                (JStr (lit "aaaaaaaa")) (JStr (lit "bbbbbbbb")) [] 0 Hkey) as H.
  destruct H as [H _]. destruct (H eq_refl) as [-> _]. reflexivity.
Defined.

(** ** [should_inline] as Python runs it: results and exceptions *)

Lemma json_depth_item (items : list json) (x : json) :
  In x items ->
  (json_depth x <= fold_right (fun x m => Nat.max (json_depth x) m) 0 items)%nat.
Proof.
  induction items as [ | y items IH ]; intros Hin; [destruct Hin | ].
  cbn [fold_right]. destruct Hin as [-> | Hin]; [lia | ].
  specialize (IH Hin). lia.
Qed.

Lemma json_depth_value (d : list (str * json)) (x : json) :
  In x (map snd d) ->
  (json_depth x <= fold_right (fun kv m => Nat.max (json_depth (snd kv)) m) 0 d)%nat.
Proof.
  induction d as [ | kv d IH ]; intros Hin; [destruct Hin | ].
  cbn [fold_right]. destruct Hin as [<- | Hin]; [lia | ].
  specialize (IH Hin). lia.
Qed.

Lemma json_depth_positive (obj : json) : (1 <= json_depth obj)%nat.
Proof. destruct obj; cbn [json_depth]; lia. Qed.

(** The depth of a child is below the depth of its container. *)
Lemma json_depth_child (obj child : json) :
  In child (children obj) -> (S (json_depth child) <= json_depth obj)%nat.
Proof.
  destruct obj as [ | | | | | items | d ]; try (intros []); intros Hin;
    cbn [json_depth].
  - pose proof (json_depth_item items child Hin). lia.
  - pose proof (json_depth_value d child Hin). lia.
Qed.

Lemma getitem_first (key : str) (value : json) (d : list (str * json)) :
  getitem ((key, value) :: d) key = Ok value.
Proof.
  unfold getitem. cbn [find fst snd].
  now rewrite (proj2 (str_eqb_eq key key) eq_refl).
Qed.

Lemma primitive_ok (frames budget : nat) :
  (frames <= budget)%nat -> primitive frames budget = Ok tt.
Proof.
  intros H. unfold primitive. destruct (Nat.ltb_spec budget frames); [lia | reflexivity].
Qed.

Lemma primitive_raises (frames budget : nat) (e : exn) :
  primitive frames budget = Raise e -> e = RecursionError.
Proof.
  unfold primitive. destruct (budget <? frames)%nat; [ | discriminate ].
  intros H. now injection H as <-.
Qed.

Lemma all_ok_map {A : Type} (f : A -> result unit) (xs : list A) :
  (forall x, In x xs -> f x = Ok tt) -> all_ok (map f xs) = Ok tt.
Proof.
  induction xs as [ | x xs IH ]; intros H; [reflexivity | ].
  cbn [map all_ok]. rewrite (H x (or_introl eq_refl)). cbn [bind].
  apply IH. intros y Hy. apply H. now right.
Qed.

Lemma all_ok_raises {A : Type} (f : A -> result unit) (xs : list A) (e : exn) :
  all_ok (map f xs) = Raise e -> exists x, In x xs /\ f x = Raise e.
Proof.
  induction xs as [ | x xs IH ]; intros H; [discriminate H | ].
  cbn [map all_ok] in H. destruct (f x) as [ [] | e'] eqn:Hx; cbn [bind] in H.
  - destruct (IH H) as (y & Hy & Hfy). exists y. split; [now right | exact Hfy].
  - injection H as ->. exists x. split; [now left | exact Hx].
Qed.

(** The encoder raises nothing when the frames left cover its descent and
    every integer fits the digit limit. *)
Lemma encoder_ok (it : Interpreter) (obj : json) :
  forall budget,
  (encoder_frames it * json_depth obj <= budget)%nat ->
  ints_fit it obj = true ->
  encoder it budget obj = Ok tt.
Proof.
  induction obj as [ | | n | | | items IH | d IH ] using json_ind;
    intros budget Hframes Hints; try reflexivity.
  - cbn [encoder ints_fit] in *. now rewrite Hints.
  - cbn [encoder ints_fit json_depth] in *.
    rewrite primitive_ok by nia. cbn [bind].
    rewrite forallb_forall in Hints. rewrite Forall_forall in IH.
    apply all_ok_map. intros x Hx. apply (IH x Hx); [ | now apply Hints ].
    pose proof (json_depth_item items x Hx). nia.
  - cbn [encoder ints_fit json_depth] in *.
    rewrite primitive_ok by nia. cbn [bind].
    rewrite forallb_forall in Hints. rewrite Forall_forall in IH.
    apply all_ok_map. intros kv Hkv. apply (IH kv Hkv); [ | now apply Hints ].
    pose proof (json_depth_value d (snd kv) (in_map snd d kv Hkv)). nia.
Qed.

Lemma encoder_raises (it : Interpreter) (obj : json) :
  forall budget e,
  encoder it budget obj = Raise e -> e = RecursionError \/ e = ValueError.
Proof.
  induction obj as [ | | n | | | items IH | d IH ] using json_ind;
    intros budget e H; try discriminate H.
  - cbn [encoder] in H. destruct (int_fits it n); [discriminate H | ].
    injection H as <-. now right.
  - cbn [encoder] in H.
    destruct (primitive (encoder_frames it) budget) as [ [] | e'] eqn:Hp; cbn [bind] in H.
    + apply all_ok_raises in H. destruct H as (x & Hx & Hex).
      rewrite Forall_forall in IH. exact (IH x Hx _ _ Hex).
    + injection H as ->. left. exact (primitive_raises _ _ _ Hp).
  - cbn [encoder] in H.
    destruct (primitive (encoder_frames it) budget) as [ [] | e'] eqn:Hp; cbn [bind] in H.
    + apply all_ok_raises in H. destruct H as (kv & Hkv & Hex).
      rewrite Forall_forall in IH. exact (IH kv Hkv _ _ Hex).
    + injection H as ->. left. exact (primitive_raises _ _ _ Hp).
Qed.

Lemma call_dumps_ok (it : Interpreter) (budget : nat) (item_sep key_sep : str)
  (obj : json) :
  (dumps_frames it + encoder_frames it * json_depth obj <= budget)%nat ->
  ints_fit it obj = true ->
  call_dumps it budget item_sep key_sep obj = Ok (Json.dumps item_sep key_sep obj).
Proof.
  intros Hframes Hints. unfold call_dumps.
  rewrite primitive_ok by lia. cbn [bind].
  rewrite encoder_ok by (assumption || lia). reflexivity.
Qed.

Lemma call_dumps_result (it : Interpreter) (budget : nat) (item_sep key_sep : str)
  (obj : json) (text : str) :
  call_dumps it budget item_sep key_sep obj = Ok text ->
  text = Json.dumps item_sep key_sep obj.
Proof.
  unfold call_dumps.
  destruct (primitive (dumps_frames it) budget) as [ [] | e]; cbn [bind];
    [ | discriminate ].
  destruct (encoder it (budget - dumps_frames it) obj) as [ [] | e]; cbn [bind];
    [ | discriminate ].
  intros H. now injection H as <-.
Qed.

Lemma call_dumps_raises (it : Interpreter) (budget : nat) (item_sep key_sep : str)
  (obj : json) (e : exn) :
  call_dumps it budget item_sep key_sep obj = Raise e ->
  e = RecursionError \/ e = ValueError.
Proof.
  unfold call_dumps.
  destruct (primitive (dumps_frames it) budget) as [ [] | e'] eqn:Hp; cbn [bind].
  - destruct (encoder it (budget - dumps_frames it) obj) as [ [] | e''] eqn:He;
      cbn [bind]; [discriminate | ].
    intros H. injection H as ->. exact (encoder_raises _ _ _ _ He).
  - intros H. injection H as ->. left. exact (primitive_raises _ _ _ Hp).
Qed.

(** The loop over children that all return. *)
Lemma loop_all_inline_returns (call : json -> result bool) (f : json -> bool)
  (vs : list json) :
  (forall v, In v vs -> call v = Ok (f v)) ->
  loop_all_inline call vs = Ok (forallb f vs).
Proof.
  induction vs as [ | v vs IH ]; intros Hcall; [reflexivity | ].
  cbn [loop_all_inline forallb]. rewrite (Hcall v (or_introl eq_refl)). cbn [bind].
  destruct (f v); cbn [negb andb]; [ | reflexivity ].
  apply IH. intros w Hw. apply Hcall. now right.
Qed.

(** A result of the loop, when the calls that return are right. *)
Lemma loop_all_inline_result (call : json -> result bool) (f : json -> bool)
  (vs : list json) (b : bool) :
  (forall v r, In v vs -> call v = Ok r -> r = f v) ->
  loop_all_inline call vs = Ok b -> b = forallb f vs.
Proof.
  induction vs as [ | v vs IH ]; intros Hcall Hloop.
  - cbn in Hloop. now injection Hloop as <-.
  - cbn [loop_all_inline forallb] in *.
    destruct (call v) as [r | e] eqn:Hv; cbn [bind] in Hloop; [ | discriminate Hloop].
    rewrite <- (Hcall v r (or_introl eq_refl) Hv).
    destruct r; cbn [negb andb] in *.
    + apply IH; [ | exact Hloop]. intros w r Hw. apply Hcall. now right.
    + now injection Hloop as <-.
Qed.

(** An exception of the loop comes from one of the calls. *)
Lemma loop_all_inline_raises (call : json -> result bool) (vs : list json) (e : exn) :
  loop_all_inline call vs = Raise e -> exists v, In v vs /\ call v = Raise e.
Proof.
  induction vs as [ | v vs IH ]; intros Hloop; [discriminate Hloop | ].
  cbn [loop_all_inline] in Hloop.
  destruct (call v) as [r | e'] eqn:Hv; cbn [bind] in Hloop.
  - destruct r; cbn [negb] in Hloop; [ | discriminate Hloop].
    destruct (IH Hloop) as (w & Hw & Hcall). exists w. split; [now right | exact Hcall].
  - injection Hloop as ->. exists v. split; [now left | exact Hv].
Qed.

(** The size constraints as the classifier states them, on the children. *)
Lemma should_inline_children (self : SemiBeautifier) (obj : json) :
  size_constrained obj = true ->
  should_inline self obj =
    if len (children obj) >? max_inline_items self then false
    else if negb (forallb (should_inline self) (children obj)) then false
    else len (Json.dumps (lit ",") (lit ":") obj) <=? max_inline_length self.
Proof. apply should_inline_size_constraints. Qed.

Lemma call_size_constraints_returns (it : Interpreter) (budget : nat)
  (self : SemiBeautifier) (call : json -> result bool) (obj : json) :
  size_constrained obj = true ->
  (forall v, In v (children obj) -> call v = Ok (should_inline self v)) ->
  call_dumps it budget (lit ",") (lit ":") obj
  = Ok (Json.dumps (lit ",") (lit ":") obj) ->
  call_size_constraints it budget self call obj (children obj)
  = Ok (should_inline self obj).
Proof.
  intros Hc Hcall Hdumps. rewrite (should_inline_children self obj Hc).
  unfold call_size_constraints.
  destruct (len (children obj) >? max_inline_items self); [reflexivity | ].
  rewrite (loop_all_inline_returns call (should_inline self) _ Hcall). cbn [bind].
  destruct (forallb (should_inline self) (children obj)); cbn [negb]; [ | reflexivity ].
  rewrite Hdumps. reflexivity.
Qed.

Lemma call_size_constraints_result (it : Interpreter) (budget : nat)
  (self : SemiBeautifier) (call : json -> result bool) (obj : json) (b : bool) :
  size_constrained obj = true ->
  (forall v r, call v = Ok r -> r = should_inline self v) ->
  call_size_constraints it budget self call obj (children obj) = Ok b ->
  b = should_inline self obj.
Proof.
  intros Hc Hcall. rewrite (should_inline_children self obj Hc).
  unfold call_size_constraints.
  destruct (len (children obj) >? max_inline_items self);
    [intros H; now injection H as <- | ].
  destruct (loop_all_inline call (children obj)) as [all | e] eqn:Hloop; cbn [bind];
    [ | discriminate ].
  apply (loop_all_inline_result call (should_inline self)) in Hloop;
    [ | intros v r _; apply Hcall ].
  rewrite <- Hloop. destruct all; cbn [negb]; [ | intros H; now injection H as <- ].
  destruct (call_dumps it budget (lit ",") (lit ":") obj) as [text | e] eqn:Hdumps;
    cbn [bind]; [ | discriminate ].
  apply call_dumps_result in Hdumps. subst text. intros H. now injection H as <-.
Qed.

Lemma call_size_constraints_raises (it : Interpreter) (budget : nat)
  (self : SemiBeautifier) (call : json -> result bool) (obj : json)
  (values : list json) (e : exn) :
  (forall v e', call v = Raise e' -> e' = RecursionError \/ e' = ValueError) ->
  call_size_constraints it budget self call obj values = Raise e ->
  e = RecursionError \/ e = ValueError.
Proof.
  intros Hcall. unfold call_size_constraints.
  destruct (len values >? max_inline_items self); [discriminate | ].
  destruct (loop_all_inline call values) as [all | e'] eqn:Hloop; cbn [bind].
  - destruct all; cbn [negb]; [ | discriminate ].
    destruct (call_dumps it budget (lit ",") (lit ":") obj) as [text | e'] eqn:Hdumps;
      cbn [bind]; [discriminate | ].
    intros H. injection H as ->. exact (call_dumps_raises _ _ _ _ _ _ Hdumps).
  - intros H. injection H as ->. apply loop_all_inline_raises in Hloop.
    destruct Hloop as (v & _ & Hv). exact (Hcall v _ Hv).
Qed.

Lemma operation_shape (self : SemiBeautifier) (d : list (str * json)) :
  is_operation d = true ->
  exists key value, d = [(key, value)] /\
    should_inline self (JDict d) = should_inline self value.
Proof.
  destruct d as [ | [key value] [ | kv d ] ]; try discriminate.
  cbn [is_operation]. intros Hop. exists key, value. split; [reflexivity | ].
  cbn [should_inline]. now rewrite Hop.
Qed.

(** A call on a dictionary, after the two checks on the frames. *)
Lemma call_dict_unfold (it : Interpreter) (budget : nat) (self : SemiBeautifier)
  (d : list (str * json)) :
  call_should_inline it (S budget) self (JDict d) =
  u <- primitive (isinstance_frames it) budget ;;
  v <- primitive (builtin_frames it) budget ;;
  if is_operation d
  then match d with
       | kv :: _ => call_should_inline it budget self (snd kv)
       | [] => Ok false
       end
  else call_size_constraints it budget self (call_should_inline it budget self)
         (JDict d) (children (JDict d)).
Proof.
  cbn [call_should_inline is_scalar children].
  destruct (primitive (isinstance_frames it) budget) as [ [] | e]; [ | reflexivity ].
  destruct (primitive (builtin_frames it) budget) as [ [] | e]; [ | reflexivity ].
  cbn [bind].
  destruct d as [ | [key value] [ | kv d ] ].
  - reflexivity.
  - change (len [(key, value)] =? 1) with true. cbv iota.
    cbn [next_iter fst snd bind is_operation]. rewrite getitem_first. cbn [bind].
    destruct (str_in key jsonlogic_operators); [ | reflexivity ].
    destruct (call_should_inline it budget self value); reflexivity.
  - replace (len ((key, value) :: kv :: d) =? 1) with false; [reflexivity | ].
    symmetry. apply Z.eqb_neq. unfold len. cbn [length]. lia.
Qed.

Lemma enough_frames_child (it : Interpreter) (obj child : json) (budget : nat) :
  In child (children obj) ->
  (enough_frames it obj <= S budget)%nat ->
  (enough_frames it child <= budget)%nat.
Proof.
  intros Hin. pose proof (json_depth_child obj child Hin). unfold enough_frames. nia.
Qed.

(** C8 (as the code behaves).  A call of [should_inline] returns a boolean,
    the one [should_inline] denotes, and raises nothing, on every value and
    under every configuration, when the interpreter has enough frames left
    for the nesting depth of the value and no integer of the value has more
    digits than the interpreter converts to text. *)
Theorem should_inline_returns (it : Interpreter) (budget : nat) (self : SemiBeautifier)
  (obj : json) :
  (enough_frames it obj <= budget)%nat ->
  ints_fit it obj = true ->
  call_should_inline it budget self obj = Ok (should_inline self obj).
Proof.
  revert obj. induction budget as [ | budget IH ]; intros obj Hframes Hints.
  - pose proof (json_depth_positive obj). unfold enough_frames in Hframes. nia.
  - assert (Hdepth : (1 <= json_depth obj)%nat) by apply json_depth_positive.
    assert (Hchildren : forall v, In v (children obj) ->
              call_should_inline it budget self v = Ok (should_inline self v)).
    { intros v Hv. apply IH; [now apply (enough_frames_child it obj) | ].
      destruct obj as [ | | | | | items | d ]; try destruct Hv;
        cbn [ints_fit children] in *; rewrite forallb_forall in Hints.
      - now apply Hints.
      - apply in_map_iff in Hv. destruct Hv as (kv & <- & Hkv). now apply Hints. }
    assert (Hdumps : call_dumps it budget (lit ",") (lit ":") obj
                     = Ok (Json.dumps (lit ",") (lit ":") obj)).
    { apply call_dumps_ok; [ | exact Hints ]. unfold enough_frames in Hframes. nia. }
    assert (H1 : primitive (isinstance_frames it) budget = Ok tt)
      by (apply primitive_ok; unfold enough_frames in Hframes; nia).
    assert (H2 : primitive (builtin_frames it) budget = Ok tt)
      by (apply primitive_ok; unfold enough_frames in Hframes; nia).
    destruct obj as [ | | | | | items | d ];
      try (cbn [call_should_inline is_scalar]; rewrite H1; reflexivity).
    + cbn [call_should_inline is_scalar]. rewrite H1, H2. cbn [bind].
      now apply (call_size_constraints_returns it budget self _ (JList items)).
    + rewrite call_dict_unfold, H1, H2. cbn [bind].
      destruct (is_operation d) eqn:Hop.
      * destruct (operation_shape self d Hop) as (key & value & -> & ->).
        cbn [snd]. apply Hchildren. now left.
      * apply (call_size_constraints_returns it budget self _ (JDict d));
          [cbn [size_constrained]; now rewrite Hop | exact Hchildren | exact Hdumps].
Qed.

Lemma should_inline_returns_witness :
  call_should_inline cpython 900 default_config
    (JDict [(lit "==", JList [var_x; JInt 1])]) = Ok true.
Proof.
  refine (should_inline_returns cpython 900 default_config
            (JDict [(lit "==", JList [var_x; JInt 1])]) _ _).
  - vm_compute. lia.
  - vm_compute. reflexivity.
Defined.

(** C8 as the specification words it fails: with 900 frames left and the
    default digit limit, the call on the list that holds ten to the power
    4300 raises [ValueError] at the length estimate of line 59; and a call
    on [[1]] that finds a single frame left raises [RecursionError]. *)
Lemma should_inline_raises :
  call_should_inline cpython 900 default_config huge_int_list = Raise ValueError /\
  call_should_inline cpython 1 default_config (ints [1]) = Raise RecursionError.
Proof.
  split; vm_compute; reflexivity.
Qed.

(** Whatever the interpreter and the frames left, a call that returns
    returns what [should_inline] denotes. *)
Lemma call_should_inline_result (it : Interpreter) (budget : nat)
  (self : SemiBeautifier) (obj : json) (b : bool) :
  call_should_inline it budget self obj = Ok b -> b = should_inline self obj.
Proof.
  revert obj b. induction budget as [ | budget IH ]; intros obj b Hcall;
    [discriminate Hcall | ].
  destruct obj as [ | | | | | items | d ].
  1-5: cbn [call_should_inline is_scalar] in Hcall;
       destruct (primitive (isinstance_frames it) budget) as [ [] | e];
       cbn [bind] in Hcall; [now injection Hcall as <- | discriminate Hcall].
  - cbn [call_should_inline is_scalar] in Hcall.
    destruct (primitive (isinstance_frames it) budget) as [ [] | e];
      cbn [bind] in Hcall; [ | discriminate Hcall].
    destruct (primitive (builtin_frames it) budget) as [ [] | e];
      cbn [bind] in Hcall; [ | discriminate Hcall].
    exact (call_size_constraints_result it budget self _ (JList items) b eq_refl IH Hcall).
  - rewrite call_dict_unfold in Hcall.
    destruct (primitive (isinstance_frames it) budget) as [ [] | e];
      cbn [bind] in Hcall; [ | discriminate Hcall].
    destruct (primitive (builtin_frames it) budget) as [ [] | e];
      cbn [bind] in Hcall; [ | discriminate Hcall].
    destruct (is_operation d) eqn:Hop.
    + destruct (operation_shape self d Hop) as (key & value & -> & ->).
      cbn [snd] in Hcall. now apply IH.
    + refine (call_size_constraints_result it budget self _ (JDict d) b _ IH Hcall).
      cbn [size_constrained]. now rewrite Hop.
Qed.

(** [should_inline] reads the two thresholds of the configuration and
    nothing else of it. *)
Lemma should_inline_thresholds (self1 self2 : SemiBeautifier) (obj : json) :
  max_inline_length self1 = max_inline_length self2 ->
  max_inline_items self1 = max_inline_items self2 ->
  should_inline self1 obj = should_inline self2 obj.
Proof.
  intros Hlen Hitems.
  induction obj as [ | | | | | items IH | d IH ] using json_ind; try reflexivity.
  - cbn [should_inline]. rewrite Hlen, Hitems.
    replace (forallb (should_inline self1) items) with (forallb (should_inline self2) items);
      [reflexivity | ].
    induction IH as [ | x items Hx _ IHitems ]; [reflexivity | ].
    cbn [forallb]. now rewrite Hx, IHitems.
  - cbn [should_inline]. rewrite Hlen, Hitems.
    replace (forallb (fun kv => should_inline self1 (snd kv)) d)
      with (forallb (fun kv => should_inline self2 (snd kv)) d).
    + destruct d as [ | [key value] [ | kv d ] ]; try reflexivity.
      inversion IH as [ | ? ? Hvalue _ ]; subst. cbn [snd] in Hvalue.
      now rewrite Hvalue.
    + induction IH as [ | x d Hx _ IHd ]; [reflexivity | ].
      cbn [forallb]. now rewrite Hx, IHd.
Qed.

(** C9 (as the code behaves).  Two calls of [should_inline] on equal values,
    under configurations with equal thresholds, that both return, return
    the same boolean, whatever the interpreters, the frames left to each
    call and the indentation strings.  Whether a call returns is another
    matter: see [should_inline_depends_on_interpreter]. *)
Theorem should_inline_deterministic
  (it1 it2 : Interpreter) (budget1 budget2 : nat) (self1 self2 : SemiBeautifier)
  (obj1 obj2 : json) (b1 b2 : bool) :
  obj1 = obj2 ->
  max_inline_length self1 = max_inline_length self2 ->
  max_inline_items self1 = max_inline_items self2 ->
  call_should_inline it1 budget1 self1 obj1 = Ok b1 ->
  call_should_inline it2 budget2 self2 obj2 = Ok b2 ->
  b1 = b2.
Proof.
  intros <- Hlen Hitems H1 H2.
  apply call_should_inline_result in H1, H2. subst b1 b2.
  now apply should_inline_thresholds.
Qed.

Lemma should_inline_deterministic_witness :
  call_should_inline cpython 900 (init 80 3 4) (ints [1; 2; 3]) = Ok true /\
  call_should_inline cpython_no_digit_limit 500 (init 80 3 0) (ints [1; 2; 3]) = Ok true /\
  true = true.
Proof.
  assert (H1 : call_should_inline cpython 900 (init 80 3 4) (ints [1; 2; 3]) = Ok true)
    by (vm_compute; reflexivity).
  assert (H2 : call_should_inline cpython_no_digit_limit 500 (init 80 3 0)
                 (ints [1; 2; 3]) = Ok true)
    by (vm_compute; reflexivity).
  split; [exact H1 | split; [exact H2 | ] ].
  exact (should_inline_deterministic cpython cpython_no_digit_limit 900 500
           (init 80 3 4) (init 80 3 0)
           (ints [1; 2; 3]) (ints [1; 2; 3]) true true
           eq_refl eq_refl eq_refl H1 H2).
Defined.

(** C9 as the specification words it fails: on the same value and under
    the same configuration, the outcome of a call depends on the state of
    the interpreter.  The call on [[1]] raises [RecursionError] with one
    frame left and returns [True] with 900; the call on the list that holds
    ten to the power 4300 raises [ValueError] under the default digit limit
    and returns [False] when the limit is off. *)
Lemma should_inline_depends_on_interpreter :
  ~ (forall (it1 it2 : Interpreter) (budget1 budget2 : nat) (self : SemiBeautifier)
            (obj : json),
       call_should_inline it1 budget1 self obj = call_should_inline it2 budget2 self obj)
  /\ call_should_inline cpython 1 default_config (ints [1]) = Raise RecursionError
  /\ call_should_inline cpython 900 default_config (ints [1]) = Ok true
  /\ call_should_inline cpython 900 default_config huge_int_list = Raise ValueError
  /\ call_should_inline cpython_no_digit_limit 900 default_config huge_int_list = Ok false.
Proof.
  assert (H1 : call_should_inline cpython 1 default_config (ints [1])
               = Raise RecursionError) by (vm_compute; reflexivity).
  assert (H2 : call_should_inline cpython 900 default_config (ints [1]) = Ok true)
    by (vm_compute; reflexivity).
  assert (H3 : call_should_inline cpython 900 default_config huge_int_list
               = Raise ValueError) by (vm_compute; reflexivity).
  assert (H4 : call_should_inline cpython_no_digit_limit 900 default_config huge_int_list
               = Ok false) by (vm_compute; reflexivity).
  split; [ | exact (conj H1 (conj H2 (conj H3 H4))) ].
  intros H. specialize (H cpython cpython 1%nat 900%nat default_config (ints [1])).
  rewrite H1, H2 in H. discriminate H.
Qed.

(** ** The last character of the output *)

Lemma ends_without_newline_app (a b : str) :
  ends_without_newline b -> ends_without_newline (a ++ b).
Proof.
  intros (prefix & c & -> & Hc). exists (a ++ prefix), c.
  split; [now rewrite app_assoc | exact Hc].
Qed.

Lemma no_newline_ends (s : str) :
  s <> [] -> no_newline s -> ends_without_newline s.
Proof.
  intros Hne Hs. exists (removelast s), (last s 0%N).
  split; [now apply app_removelast_last | ].
  unfold no_newline in Hs. rewrite Forall_forall in Hs.
  apply Hs. clear Hs. induction s as [ | c s IH ]; [congruence | ].
  destruct s as [ | c' s ]; [now left | ].
  right. apply IH. discriminate.
Qed.

Lemma ends_without_newline_not (s : str) :
  ends_without_newline s -> ~ ends_with_newline s.
Proof.
  intros (prefix & c & -> & Hc) [prefix' Heq].
  apply app_inj_tail in Heq. destruct Heq as [_ ->]. now apply Hc.
Qed.

Lemma no_newline_app (a b : str) : no_newline a -> no_newline b -> no_newline (a ++ b).
Proof. intros Ha Hb. apply Forall_app. now split. Qed.

(** Facts of the form [no_newline s] are collected in a hint database; a
    literal is checked character by character. *)
Create HintDb newline.

Ltac no_newline_literal := repeat constructor; discriminate.

#[local] Hint Resolve no_newline_app : newline.
#[local] Hint Extern 1 (no_newline (lit _)) => no_newline_literal : newline.
#[local] Hint Extern 1 (no_newline (if _ then _ else _)) =>
  match goal with |- context [if ?b then _ else _] => destruct b end : newline.

Lemma no_newline_uint (u : Decimal.uint) : no_newline (lit (NilEmpty.string_of_uint u)).
Proof.
  induction u; cbn [NilEmpty.string_of_uint lit list_ascii_of_string map];
    constructor; (discriminate || assumption).
Qed.

Lemma int_repr_no_newline (n : Z) : no_newline (Json.int_repr n).
Proof.
  unfold Json.int_repr, NilZero.string_of_int, NilZero.string_of_uint.
  destruct (Z.to_int n) as [u | u].
  - destruct u; try apply no_newline_uint. no_newline_literal.
  - cbn [lit list_ascii_of_string map]. constructor; [discriminate | ].
    destruct u; try apply no_newline_uint. no_newline_literal.
Qed.

Lemma int_repr_not_empty (n : Z) : Json.int_repr n <> [].
Proof.
  unfold Json.int_repr, NilZero.string_of_int, NilZero.string_of_uint.
  destruct (Z.to_int n) as [u | u]; destruct u; discriminate.
Qed.

Lemma zeros_no_newline (n : Z) : no_newline (Json.zeros n).
Proof.
  unfold Json.zeros, str_mul. induction (Z.to_nat n) as [ | k IH ]; [constructor | ].
  cbn [repeat concat]. apply no_newline_app; [no_newline_literal | exact IH].
Qed.

#[local] Hint Resolve int_repr_no_newline zeros_no_newline : newline.

Lemma exp_digits_no_newline (e : Z) : no_newline (Json.exp_digits e).
Proof. unfold Json.exp_digits. auto with newline. Qed.

#[local] Hint Resolve exp_digits_no_newline : newline.

Lemma float_repr_finite_no_newline (negative : bool) (digits : Decimal.uint) (decpt : Z) :
  no_newline (Json.float_repr_finite negative digits decpt).
Proof.
  unfold Json.float_repr_finite.
  pose proof (no_newline_uint digits) as Hds.
  set (ds := lit (NilEmpty.string_of_uint digits)) in *.
  assert (Hparts : no_newline (firstn (Z.to_nat decpt) ds)
                   /\ no_newline (skipn (Z.to_nat decpt) ds)).
  { apply Forall_app. now rewrite firstn_skipn. }
  destruct Hparts as [Hfirst Hskip].
  apply no_newline_app; [destruct negative; [no_newline_literal | constructor] | ].
  destruct ((decpt <=? -4) || (decpt >? 16)).
  - destruct ds as [ | d rest ]; [auto 6 with newline | ].
    inversion Hds as [ | ? ? Hd Hrest ]; subst.
    apply no_newline_app; [now repeat constructor | ].
    apply no_newline_app; [ | auto 6 with newline ].
    destruct rest; [constructor | auto with newline].
  - destruct (decpt <=? 0); [auto with newline | ].
    destruct (len ds <=? decpt); auto with newline.
Qed.

Lemma float_repr_finite_not_empty (negative : bool) (digits : Decimal.uint) (decpt : Z) :
  Json.float_repr_finite negative digits decpt <> [].
Proof.
  unfold Json.float_repr_finite. intros H. apply app_eq_nil in H. destruct H as [_ H].
  destruct ((decpt <=? -4) || (decpt >? 16)).
  - destruct (lit (NilEmpty.string_of_uint digits)); discriminate H.
  - destruct (decpt <=? 0); [discriminate H | ].
    destruct (len (lit (NilEmpty.string_of_uint digits)) <=? decpt).
    + apply app_eq_nil in H. destruct H as [_ H]. apply app_eq_nil in H.
      destruct H as [_ H]. discriminate H.
    + apply app_eq_nil in H. destruct H as [_ H]. discriminate H.
Qed.

Lemma floatstr_ends (f : pyfloat) : ends_without_newline (Json.floatstr f).
Proof.
  apply no_newline_ends.
  - destruct f as [ | [ | ] | s ds e ]; try discriminate.
    apply float_repr_finite_not_empty.
  - destruct f as [ | [ | ] | s ds e ];
      try (repeat constructor; discriminate).
    apply float_repr_finite_no_newline.
Qed.

Lemma ends_last (c : N) : c <> nl -> ends_without_newline [c].
Proof. intros Hc. exists [], c. now split. Qed.

(** Whatever the separators, the text [json.dumps] returns has a last
    character that is not a line feed. *)
Lemma dumps_ends (item_sep key_sep : str) (obj : json) :
  ends_without_newline (Json.dumps item_sep key_sep obj).
Proof.
  destruct obj as [ | [ | ] | n | f | s | [ | x items ] | [ | kv d ] ];
    cbn [Json.dumps];
    try (apply no_newline_ends; [discriminate | repeat constructor; discriminate]).
  - apply no_newline_ends; [apply int_repr_not_empty | apply int_repr_no_newline].
  - apply floatstr_ends.
  - unfold Json.encode_basestring_ascii.
    do 2 apply ends_without_newline_app. apply ends_last. discriminate.
  - do 2 apply ends_without_newline_app. apply ends_last. discriminate.
  - do 2 apply ends_without_newline_app. apply ends_last. discriminate.
Qed.

(** Whatever the depth, the text [format_value] returns has a last
    character that is not a line feed. *)
Lemma format_value_ends (self : SemiBeautifier) (obj : json) (depth : Z) :
  ends_without_newline (format_value self obj depth).
Proof.
  assert (Hclose : forall a b, ends_without_newline (a ++ b ++ lit "]}")).
  { intros a b. do 2 apply ends_without_newline_app.
    exists (lit "]"), 125%N. split; [reflexivity | discriminate]. }
  assert (Hregular : forall i n f, ends_without_newline (regular_layout i n f)).
  { intros i n f. unfold regular_layout.
    do 5 apply ends_without_newline_app. apply ends_last. discriminate. }
  destruct obj as [ | b | n | f | s | items | d ];
    try (cbn [format_value is_scalar]; apply dumps_ends).
  - cbn [format_value is_scalar].
    destruct (should_inline self (JList items)); [apply dumps_ends | ].
    destruct items as [ | x items ];
      [exists (lit "["), 93%N; split; [reflexivity | discriminate] | ].
    destruct (forallb is_scalar (x :: items) && _); [apply dumps_ends | ].
    unfold multiline_layout.
    do 5 apply ends_without_newline_app. apply ends_last. discriminate.
  - cbn [format_value is_scalar].
    destruct (should_inline self (JDict d)); [apply dumps_ends | ].
    destruct d as [ | [key value] [ | kv d ] ].
    + exists (lit "{"), 125%N. split; [reflexivity | discriminate].
    + destruct value; try apply Hregular.
      destruct (str_eqb key (lit "if") && _).
      * unfold bracket_layout. apply Hclose.
      * destruct (str_in key [lit "and"; lit "or"] && _); [ | apply Hregular ].
        unfold bracket_layout. apply Hclose.
    + apply Hregular.
Qed.

(** C7.  The text [beautify] returns, for every JSON value and every
    configuration, does not end with a line feed. *)
Theorem beautify_no_trailing_newline (self : SemiBeautifier) (data : json) :
  ~ ends_with_newline (beautify self data).
Proof.
  apply ends_without_newline_not. apply format_value_ends.
Qed.

(** * Further properties of the renderer and the classifier *)

(** ** The loop of the bracket layout *)

Lemma bracket_loop_join (next_indent : str) (n : Z) (l : list str) :
  l <> [] ->
  forall (i : nat) (result : str),
  Z.of_nat i + len l = n ->
  fold_left
    (fun result (ix : nat * str) =>
       let result := result ++ next_indent ++ snd ix in
       let result := if Z.of_nat (fst ix) <? n - 1 then result ++ lit "," else result in
       result ++ [nl])
    (combine (seq i (length l)) l) result
  = result ++ join (lit "," ++ [nl]) (map (fun item => next_indent ++ item) l) ++ [nl].
Proof.
  induction l as [ | x l IH ]; [congruence | ]. intros _ i result Hn.
  unfold len in Hn. cbn [length] in Hn.
  change (combine (seq i (length (x :: l))) (x :: l))
    with ((i, x) :: combine (seq (S i) (length l)) l).
  cbn [fold_left fst snd].
  destruct l as [ | y l ]; cbn [length] in Hn.
  - destruct (Z.ltb_spec (Z.of_nat i) (n - 1)); [lia | ].
    cbn. now rewrite <- !app_assoc.
  - destruct (Z.ltb_spec (Z.of_nat i) (n - 1)); [ | lia ].
    assert (Hn' : Z.of_nat (S i) + len (y :: l) = n)
      by (unfold len; cbn [length]; lia).
    etransitivity; [exact (IH ltac:(discriminate) (S i) _ Hn') | ].
    change (join (lit "," ++ [nl]) (map (fun item => next_indent ++ item) (x :: y :: l)))
      with ((next_indent ++ x) ++ (lit "," ++ [nl])
            ++ join (lit "," ++ [nl]) (map (fun item => next_indent ++ item) (y :: l))).
    now rewrite <- !app_assoc.
Qed.

(** The loop of lines 88-92 writes what the [join] of lines 126-130 writes:
    for a non-empty list, the bracket layout is the multi-line array layout
    between an opening brace with the quoted key and a closing brace. *)
Theorem bracket_layout_wraps_array (indent next_indent key : str) (formatted : list str) :
  formatted <> [] ->
  bracket_layout indent next_indent key formatted
  = lit "{ " ++ quoted key ++ lit ": "
    ++ multiline_layout indent next_indent formatted ++ lit "}".
Proof.
  intros Hne. unfold bracket_layout, bracket_lines, multiline_layout, quoted.
  rewrite (bracket_loop_join next_indent (len formatted) formatted Hne 0);
    [ | reflexivity ].
  rewrite <- !app_assoc. reflexivity.
Qed.

Lemma bracket_layout_wraps_array_witness :
  bracket_layout [] (lit "  ") (lit "if") [lit "1"; lit "2"]
  = lit "{ " ++ quoted (lit "if") ++ lit ": "
    ++ multiline_layout [] (lit "  ") [lit "1"; lit "2"] ++ lit "}".
Proof.
  apply bracket_layout_wraps_array. discriminate.
Defined.

(** ** The classifier: children, thresholds, key order *)

Lemma should_inline_operation (self : SemiBeautifier) (d : list (str * json)) :
  is_operation d = true ->
  exists key value, d = [(key, value)] /\
    should_inline self (JDict d) = should_inline self value.
Proof.
  destruct d as [ | [key value] [ | kv d ] ]; try discriminate.
  cbn [is_operation]. intros Hop. exists key, value. split; [reflexivity | ].
  cbn [should_inline]. now rewrite Hop.
Qed.

Lemma should_inline_scalar (self : SemiBeautifier) (obj : json) :
  is_scalar obj = true -> should_inline self obj = true.
Proof. destruct obj; try discriminate; reflexivity. Qed.

(** The three ways a value can be: a scalar, a JSONLogic operation, or a
    container under the size constraints. *)
Lemma json_cases (obj : json) :
  is_scalar obj = true \/
  (exists d, obj = JDict d /\ is_operation d = true) \/
  size_constrained obj = true.
Proof.
  destruct obj as [ | | | | | items | d ]; try (left; reflexivity).
  - right. right. reflexivity.
  - right. destruct (is_operation d) eqn:Hop.
    + left. now exists d.
    + right. cbn [size_constrained]. now rewrite Hop.
Qed.

Lemma should_inline_child (self : SemiBeautifier) (obj child : json) :
  should_inline self obj = true -> In child (children obj) ->
  should_inline self child = true.
Proof.
  intros Hobj Hin.
  destruct (json_cases obj) as [Hs | [(d & -> & Hop) | Hc] ].
  - destruct obj; try discriminate; destruct Hin.
  - destruct (should_inline_operation self d Hop) as (key & value & -> & Heq).
    cbn in Hin. destruct Hin as [<- | [] ]. now rewrite <- Heq.
  - rewrite (should_inline_size_constraints self obj Hc) in Hobj.
    destruct (len (children obj) >? max_inline_items self); [discriminate | ].
    destruct (forallb (should_inline self) (children obj)) eqn:Hall; [ | discriminate ].
    rewrite forallb_forall in Hall. now apply Hall.
Qed.

(** An inline value has only inline values inside: every item and every
    value it contains, at any depth, is inline as well. *)
Theorem should_inline_inside (self : SemiBeautifier) (obj sub : json) :
  inside sub obj ->
  should_inline self obj = true ->
  should_inline self sub = true.
Proof.
  induction 1 as [ | x items Hin _ IH | kv d Hin _ IH ]; intros Hobj.
  - exact Hobj.
  - apply IH. apply (should_inline_child self (JList items)); assumption.
  - apply IH. apply (should_inline_child self (JDict d)); [assumption | ].
    cbn [children]. now apply in_map.
Qed.

Lemma should_inline_inside_witness :
  should_inline default_config (JList [JInt 1; JInt 2]) = true.
Proof.
  refine (should_inline_inside default_config
            (JDict [(lit "a", JList [JInt 1; JInt 2])]) _ _ eq_refl).
  apply (inside_value _ (lit "a", JList [JInt 1; JInt 2])); [now left | ].
  apply inside_here.
Defined.

(** Raising the thresholds keeps inline values inline. *)
Theorem should_inline_monotone (self1 self2 : SemiBeautifier) (obj : json) :
  max_inline_length self1 <= max_inline_length self2 ->
  max_inline_items self1 <= max_inline_items self2 ->
  should_inline self1 obj = true ->
  should_inline self2 obj = true.
Proof.
  intros Hlen Hitems.
  assert (Hgeneric : forall obj,
    size_constrained obj = true ->
    Forall (fun c => should_inline self1 c = true -> should_inline self2 c = true)
           (children obj) ->
    should_inline self1 obj = true -> should_inline self2 obj = true).
  { intros o Hc Hall. rewrite !(should_inline_size_constraints _ o Hc).
    destruct (Z.gtb_spec (len (children o)) (max_inline_items self1)); [discriminate | ].
    destruct (Z.gtb_spec (len (children o)) (max_inline_items self2)); [lia | ].
    destruct (forallb (should_inline self1) (children o)) eqn:H1; [ | discriminate ].
    assert (H2 : forallb (should_inline self2) (children o) = true).
    { rewrite forallb_forall in *. rewrite Forall_forall in Hall.
      intros c Hin. apply (Hall c Hin). now apply H1. }
    rewrite H2. cbn [negb]. rewrite !Z.leb_le. lia. }
  induction obj as [ | | | | | items IH | d IH ] using json_ind; try reflexivity.
  - apply Hgeneric; [reflexivity | exact IH].
  - destruct (is_operation d) eqn:Hop.
    + destruct (should_inline_operation self1 d Hop) as (key & value & -> & Heq1).
      destruct (should_inline_operation self2 _ Hop) as (key' & value' & Hd & Heq2).
      injection Hd as <- <-. rewrite Heq1, Heq2.
      inversion IH as [ | ? ? Hvalue _ ]. exact Hvalue.
    + apply Hgeneric.
      * cbn [size_constrained]. now rewrite Hop.
      * cbn [children]. apply Forall_map. exact IH.
Qed.

Lemma should_inline_monotone_witness :
  should_inline (init 100 5 4) (ints [1; 2; 3]) = true.
Proof.
  refine (should_inline_monotone (init 80 3 4) (init 100 5 4) (ints [1; 2; 3]) _ _ eq_refl).
  - vm_compute. discriminate.
  - vm_compute. discriminate.
Defined.

Lemma estimated_length_container (obj : json) :
  is_scalar obj = false -> 2 <= estimated_length obj.
Proof.
  unfold estimated_length, len.
  destruct obj as [ | | | | | [ | x items ] | [ | kv d ] ]; try discriminate; intros _;
    cbn [Json.dumps]; rewrite ?length_app; cbn [lit length map list_ascii_of_string]; lia.
Qed.

(** With [max_inline_length] below 2, or a negative [max_inline_items], no
    list and no dictionary other than a JSONLogic operation is inline, the
    empty ones included. *)
Theorem degenerate_thresholds (self : SemiBeautifier) (obj : json) :
  size_constrained obj = true ->
  max_inline_length self < 2 \/ max_inline_items self < 0 ->
  should_inline self obj = false.
Proof.
  intros Hc Hdeg. rewrite (should_inline_size_constraints self obj Hc).
  destruct (Z.gtb_spec (len (children obj)) (max_inline_items self)); [reflexivity | ].
  destruct (negb (forallb (should_inline self) (children obj))); [reflexivity | ].
  apply Z.leb_gt.
  assert (2 <= estimated_length obj).
  { apply estimated_length_container. destruct obj; try discriminate; reflexivity. }
  unfold len in *. destruct Hdeg; lia.
Qed.

Lemma degenerate_thresholds_witness :
  should_inline (init 1 3 4) (JList []) = false.
Proof.
  refine (degenerate_thresholds (init 1 3 4) (JList []) eq_refl _).
  left. vm_compute. reflexivity.
Defined.

(** The one-line rendering of an inline list, or of an inline dictionary
    that is not a JSONLogic operation, is longer than [max_inline_length] by
    at most one character for each of its separators. *)
Theorem inline_rendering_bound (self : SemiBeautifier) (obj : json) (depth : Z) :
  size_constrained obj = true ->
  should_inline self obj = true ->
  format_value self obj depth = Json.dumps (lit ", ") (lit ": ") obj /\
  len (format_value self obj depth)
  <= max_inline_length self + Z.of_nat (separators obj).
Proof.
  intros Hc Hobj.
  assert (Hfmt : format_value self obj depth = Json.dumps (lit ", ") (lit ": ") obj).
  { destruct obj; try discriminate; cbn [format_value is_scalar]; now rewrite Hobj. }
  split; [exact Hfmt | ]. rewrite Hfmt.
  rewrite (should_inline_size_constraints self obj Hc) in Hobj.
  destruct (len (children obj) >? max_inline_items self); [discriminate | ].
  destruct (negb (forallb (should_inline self) (children obj))); [discriminate | ].
  apply Z.leb_le in Hobj. unfold estimated_length, len in *.
  rewrite spaced_length. lia.
Qed.

Lemma inline_rendering_bound_witness :
  len (format_value (init 7 3 4) (ints [1; 2; 3]) 0) <= 7 + 2.
Proof.
  exact (proj2 (inline_rendering_bound (init 7 3 4) (ints [1; 2; 3]) 0 eq_refl eq_refl)).
Defined.

Lemma forallb_permutation {A : Type} (f : A -> bool) (l l' : list A) :
  Permutation l l' -> forallb f l = forallb f l'.
Proof.
  induction 1 as [ | x l l' _ IH | x y l | l l' l'' _ IH1 _ IH2 ]; cbn [forallb].
  - reflexivity.
  - now rewrite IH.
  - destruct (f x), (f y); reflexivity.
  - now rewrite IH1.
Qed.

Lemma list_sum_permutation (l l' : list nat) :
  Permutation l l' -> list_sum l = list_sum l'.
Proof.
  induction 1 as [ | x l l' _ IH | x y l | l l' l'' _ IH1 _ IH2 ]; cbn [list_sum fold_right].
  - reflexivity.
  - unfold list_sum in IH. now rewrite IH.
  - lia.
  - now rewrite IH1.
Qed.

Lemma estimated_length_permutation (d d' : list (str * json)) :
  Permutation d d' -> estimated_length (JDict d) = estimated_length (JDict d').
Proof.
  intros Hperm. unfold estimated_length, len. f_equal.
  destruct d as [ | kv d ].
  - apply Permutation_nil in Hperm. now subst.
  - destruct d' as [ | kv' d' ];
      [apply Permutation_sym, Permutation_nil in Hperm; discriminate Hperm | ].
    cbn [Json.dumps]. rewrite !length_app, !join_length, !length_map.
    rewrite (Permutation_length Hperm). f_equal. f_equal. f_equal.
    apply list_sum_permutation. now do 2 apply Permutation_map.
Qed.

(** The classification of a dictionary does not depend on the order of its
    entries. *)
Theorem should_inline_key_order (self : SemiBeautifier) (d d' : list (str * json)) :
  Permutation d d' ->
  should_inline self (JDict d) = should_inline self (JDict d').
Proof.
  intros Hperm.
  destruct (is_operation d) eqn:Hop.
  - destruct (should_inline_operation self d Hop) as (key & value & -> & _).
    apply Permutation_length_1_inv in Hperm. now subst.
  - assert (Hop' : is_operation d' = false).
    { destruct d' as [ | [key value] [ | kv d' ] ]; try reflexivity.
      apply Permutation_sym, Permutation_length_1_inv in Hperm. now subst. }
    rewrite !should_inline_size_constraints
      by (cbn [size_constrained]; now rewrite ?Hop, ?Hop').
    cbn [children]. unfold len. rewrite !length_map, (Permutation_length Hperm).
    rewrite (forallb_permutation _ _ _ (Permutation_map snd Hperm)).
    now rewrite (estimated_length_permutation d d' Hperm).
Qed.

Lemma should_inline_key_order_witness :
  should_inline default_config (JDict [(lit "a", JInt 1); (lit "b", JInt 2)])
  = should_inline default_config (JDict [(lit "b", JInt 2); (lit "a", JInt 1)]).
Proof.
  apply should_inline_key_order. apply perm_swap.
Defined.

(** ** [should_inline] as Python runs it: exceptions *)

Lemma call_should_inline_exceptions (it : Interpreter) (budget : nat)
  (self : SemiBeautifier) (obj : json) (e : exn) :
  call_should_inline it budget self obj = Raise e ->
  e = RecursionError \/ e = ValueError.
Proof.
  revert obj e. induction budget as [ | budget IH ]; intros obj e Hcall;
    [injection Hcall as <-; now left | ].
  destruct obj as [ | | | | | items | d ].
  1-5: cbn [call_should_inline is_scalar] in Hcall;
       destruct (primitive (isinstance_frames it) budget) as [ [] | e'] eqn:Hp;
       cbn [bind] in Hcall; [discriminate Hcall | ];
       injection Hcall as ->; left; exact (primitive_raises _ _ _ Hp).
  - cbn [call_should_inline is_scalar] in Hcall.
    destruct (primitive (isinstance_frames it) budget) as [ [] | e'] eqn:Hp1;
      cbn [bind] in Hcall;
      [ | injection Hcall as ->; left; exact (primitive_raises _ _ _ Hp1) ].
    destruct (primitive (builtin_frames it) budget) as [ [] | e'] eqn:Hp2;
      cbn [bind] in Hcall;
      [ | injection Hcall as ->; left; exact (primitive_raises _ _ _ Hp2) ].
    exact (call_size_constraints_raises it budget self _ _ _ e IH Hcall).
  - rewrite call_dict_unfold in Hcall.
    destruct (primitive (isinstance_frames it) budget) as [ [] | e'] eqn:Hp1;
      cbn [bind] in Hcall;
      [ | injection Hcall as ->; left; exact (primitive_raises _ _ _ Hp1) ].
    destruct (primitive (builtin_frames it) budget) as [ [] | e'] eqn:Hp2;
      cbn [bind] in Hcall;
      [ | injection Hcall as ->; left; exact (primitive_raises _ _ _ Hp2) ].
    destruct (is_operation d).
    + destruct d as [ | kv d ]; [discriminate Hcall | exact (IH _ _ Hcall)].
    + exact (call_size_constraints_raises it budget self _ _ _ e IH Hcall).
Qed.

(** [should_inline] never raises [StopIteration] or [KeyError]:
    [next(iter(obj))] and [obj[key]] are reached only for a dictionary with
    exactly one key, and [key] is that key.  The exceptions a call does
    raise are [RecursionError], when the frames run out, and [ValueError],
    from [json.dumps] on an integer beyond the digit limit. *)
Theorem call_should_inline_raises (it : Interpreter) (budget : nat)
  (self : SemiBeautifier) (obj : json) (e : exn) :
  call_should_inline it budget self obj = Raise e ->
  e <> StopIteration /\ e <> KeyError /\ (e = RecursionError \/ e = ValueError).
Proof.
  intros Hcall. apply call_should_inline_exceptions in Hcall.
  destruct Hcall as [-> | ->]; repeat split; try discriminate; auto.
Qed.

Lemma call_should_inline_raises_witness :
  call_should_inline cpython 900 default_config huge_int_list = Raise ValueError /\
  ValueError <> StopIteration /\ ValueError <> KeyError.
Proof.
  assert (H : call_should_inline cpython 900 default_config huge_int_list
              = Raise ValueError) by (vm_compute; reflexivity).
  split; [exact H | ].
  destruct (call_should_inline_raises cpython 900 default_config huge_int_list
              ValueError H) as (H1 & H2 & _).
  split; [exact H1 | exact H2].
Defined.

(** ** Line feeds in the output *)

Lemma hex_digit_range (d : N) : (48 <= Json.hex_digit d)%N.
Proof. unfold Json.hex_digit. destruct (N.ltb_spec d 10); lia. Qed.

Lemma hex4_range (n : N) : Forall (fun c => (48 <= c)%N) (Json.hex4 n).
Proof. unfold Json.hex4. repeat constructor; apply hex_digit_range. Qed.

Lemma hex4_no_newline (n : N) : no_newline (Json.hex4 n).
Proof.
  eapply Forall_impl; [ | apply hex4_range ]. unfold nl. intros c Hc. cbv beta in Hc. lia.
Qed.

Lemma escape_char_no_newline (c : N) : no_newline (Json.escape_char c).
Proof.
  unfold Json.escape_char.
  repeat match goal with
         | |- context [if ?b then _ else _] => destruct b eqn:?
         end;
    try no_newline_literal.
  - constructor; [ | constructor ]. unfold nl.
    apply andb_true_iff in Heqb1. destruct Heqb1 as [H _]. apply N.leb_le in H. lia.
  - constructor; [discriminate | ]. constructor; [discriminate | ]. apply hex4_no_newline.
  - constructor; [discriminate | ]. constructor; [discriminate | ].
    apply no_newline_app; [apply hex4_no_newline | ].
    constructor; [discriminate | ]. constructor; [discriminate | ]. apply hex4_no_newline.
Qed.

Lemma encode_no_newline (s : str) : no_newline (Json.encode_basestring_ascii s).
Proof.
  unfold Json.encode_basestring_ascii.
  apply no_newline_app; [no_newline_literal | ].
  apply no_newline_app; [ | no_newline_literal ].
  apply Forall_flat_map, Forall_forall. intros c _. apply escape_char_no_newline.
Qed.

Lemma join_no_newline (sep : str) (parts : list str) :
  no_newline sep -> Forall no_newline parts -> no_newline (join sep parts).
Proof.
  intros Hsep. induction 1 as [ | x rest Hx Hrest IH ]; [constructor | ].
  destruct rest as [ | y rest ]; [exact Hx | ].
  change (join sep (x :: y :: rest)) with (x ++ sep ++ join sep (y :: rest)).
  auto with newline.
Qed.

(** [json.dumps] writes no line feed, whatever the strings of the value,
    when the separators have none. *)
Lemma dumps_no_newline (item_sep key_sep : str) (obj : json) :
  no_newline item_sep -> no_newline key_sep ->
  no_newline (Json.dumps item_sep key_sep obj).
Proof.
  intros Hitem Hkey.
  induction obj as [ | [ | ] | n | f | s | items IH | d IH ] using json_ind;
    cbn [Json.dumps]; try no_newline_literal.
  - apply int_repr_no_newline.
  - destruct f as [ | [ | ] | sg ds e ]; try no_newline_literal.
    apply float_repr_finite_no_newline.
  - apply encode_no_newline.
  - destruct items as [ | x items ]; [no_newline_literal | ].
    apply no_newline_app; [no_newline_literal | ].
    apply no_newline_app; [ | no_newline_literal ].
    apply join_no_newline; [exact Hitem | ]. apply Forall_map. exact IH.
  - destruct d as [ | kv d ]; [no_newline_literal | ].
    apply no_newline_app; [no_newline_literal | ].
    apply no_newline_app; [ | no_newline_literal ].
    apply join_no_newline; [exact Hitem | ]. apply Forall_map.
    eapply Forall_impl; [ | exact IH ]. intros kv' Hkv'. cbv beta in Hkv'.
    apply no_newline_app; [apply encode_no_newline | ]. now apply no_newline_app.
Qed.

Lemma spaced_no_newline (obj : json) : ~ In nl (Json.dumps (lit ", ") (lit ": ") obj).
Proof.
  intros Hin.
  assert (H : no_newline (Json.dumps (lit ", ") (lit ": ") obj))
    by (apply dumps_no_newline; no_newline_literal).
  unfold no_newline in H. rewrite Forall_forall in H. now apply (H nl Hin).
Qed.

Lemma bracket_layout_newline (indent next_indent key : str) (formatted : list str) :
  In nl (bracket_layout indent next_indent key formatted).
Proof.
  unfold bracket_layout.
  destruct (bracket_lines_prefix next_indent formatted
              (lit "{ " ++ [dquote] ++ key ++ [dquote] ++ lit ": [" ++ [nl])) as [t ->].
  rewrite <- !app_assoc. do 5 (apply in_or_app; right). now left.
Qed.

Lemma regular_layout_newline (indent next_indent : str) (formatted : list (str * str)) :
  In nl (regular_layout indent next_indent formatted).
Proof.
  unfold regular_layout. apply in_or_app. right. now left.
Qed.

Lemma newline_iff_layout (self : SemiBeautifier) (obj : json) (depth : Z) :
  In nl (format_value self obj depth) <-> uses_layout self obj = true.
Proof.
  unfold uses_layout.
  destruct obj as [ | b | n | f | s | items | d ];
    try (cbn [format_value is_scalar should_inline negb andb]; split;
         [intros H; now apply spaced_no_newline in H | discriminate]).
  - cbn [format_value is_scalar].
    destruct (should_inline self (JList items)); cbn [negb andb].
    { split; [intros H; now apply spaced_no_newline in H | discriminate]. }
    destruct items as [ | x items ].
    { split; [intros [H | [H | [] ] ]; discriminate H | discriminate]. }
    destruct (forallb is_scalar (x :: items) && _); cbn [negb].
    + split; [intros H; now apply spaced_no_newline in H | discriminate].
    + split; [reflexivity | intros _ ].
      unfold multiline_layout. apply in_or_app. right. now left.
  - cbn [format_value is_scalar].
    destruct (should_inline self (JDict d)); cbn [negb andb].
    { split; [intros H; now apply spaced_no_newline in H | discriminate]. }
    destruct d as [ | [key value] [ | kv d ] ].
    + split; [intros [H | [H | [] ] ]; discriminate H | discriminate].
    + split; [reflexivity | intros _ ].
      destruct value; try apply regular_layout_newline.
      destruct (str_eqb key (lit "if") && _); [apply bracket_layout_newline | ].
      destruct (str_in key [lit "and"; lit "or"] && _);
        [apply bracket_layout_newline | apply regular_layout_newline].
    + split; [reflexivity | intros _ ]. apply regular_layout_newline.
Qed.

(** The text [format_value] returns has a line feed exactly when it is one
    of the three layouts.  Scalars, inline values, empty containers and the
    lists of scalars whose spaced form fits give a single line, whatever
    line feeds their strings and keys contain. *)
Theorem format_value_multiline_iff (self : SemiBeautifier) (obj : json) (depth : Z) :
  In nl (format_value self obj depth) <-> uses_layout self obj = true.
Proof. apply newline_iff_layout. Qed.

Lemma forallb_scalar_inline (self : SemiBeautifier) (items : list json) :
  forallb is_scalar items = true -> forallb (should_inline self) items = true.
Proof.
  rewrite !forallb_forall. intros H x Hx. now apply should_inline_scalar, H.
Qed.

(** A non-empty list of scalars is broken over several lines exactly when
    its spaced form is longer than [max_inline_length] and, in addition, it
    has more than [max_inline_items] items or already its compact form is
    longer than [max_inline_length]. *)
Theorem scalar_list_multiline_iff (self : SemiBeautifier) (items : list json) (depth : Z) :
  items <> [] ->
  forallb is_scalar items = true ->
  (In nl (format_value self (JList items) depth) <->
   max_inline_length self < len (Json.dumps (lit ", ") (lit ": ") (JList items)) /\
   (max_inline_items self < len items \/
    max_inline_length self < estimated_length (JList items))).
Proof.
  intros Hne Hscalar. rewrite newline_iff_layout. unfold uses_layout.
  rewrite (should_inline_size_constraints self (JList items) eq_refl).
  cbn [children]. rewrite (forallb_scalar_inline self items Hscalar). cbn [negb].
  destruct items as [ | x items ]; [congruence | ]. rewrite Hscalar. cbn [andb].
  destruct (Z.gtb_spec (len (x :: items)) (max_inline_items self));
    destruct (Z.leb_spec (estimated_length (JList (x :: items))) (max_inline_length self));
    destruct (Z.leb_spec (len (Json.dumps (lit ", ") (lit ": ") (JList (x :: items))))
                (max_inline_length self));
    cbn [negb andb]; split; try discriminate; try lia; intros _; try reflexivity.
  all: split; [lia | ]; try (left; lia); try (right; lia).
Qed.

Lemma scalar_list_multiline_iff_witness :
  In nl (format_value (init 10 3 4) (ints [100; 200; 300; 400]) 0).
Proof.
  apply (proj2 (scalar_list_multiline_iff (init 10 3 4)
                  (map JInt [100; 200; 300; 400]) 0 ltac:(discriminate) eq_refl)).
  split; [reflexivity | left; reflexivity].
Defined.

(** ** Keys that need no escaping *)

Lemma escape_char_plain (c : N) :
  (plain_char c = true /\ Json.escape_char c = [c]) \/
  (plain_char c = false /\ (2 <= length (Json.escape_char c))%nat).
Proof.
  unfold plain_char, Json.escape_char.
  destruct (N.eqb_spec c 92) as [-> | H92]; [right; split; [reflexivity | cbn; lia] | ].
  destruct (N.eqb_spec c 34) as [-> | H34]; [right; split; [reflexivity | cbn; lia] | ].
  cbn [negb]. rewrite !andb_true_r.
  destruct ((32 <=? c)%N && (c <=? 126)%N); [left; split; reflexivity | ].
  right. split; [reflexivity | ].
  repeat match goal with
         | |- context [if ?b then _ else _] => destruct b
         end; cbn [length app lit map list_ascii_of_string]; lia.
Qed.



(** ** Whitespace outside string literals *)

Lemma squeeze_ws (s r : str) :
  Forall (fun c => is_ws c = true) s ->
  squeeze_from Outside (s ++ r) = squeeze_from Outside r.
Proof.
  induction 1 as [ | c s Hc _ IH ]; [reflexivity | ].
  cbn [app squeeze_from]. now rewrite Hc.
Qed.

Lemma squeeze_tokens (s r : str) :
  Forall (fun c => is_ws c = false /\ c <> 34%N) s ->
  squeeze_from Outside (s ++ r) = s ++ squeeze_from Outside r.
Proof.
  induction 1 as [ | c s [Hws Hq] _ IH ]; [reflexivity | ].
  cbn [app squeeze_from]. rewrite Hws.
  destruct (N.eqb_spec c 34); [contradiction | ]. now rewrite IH.
Qed.

Lemma squeeze_inert (s r : str) :
  Forall (fun c => c <> 34%N /\ c <> 92%N) s ->
  squeeze_from InString (s ++ r) = s ++ squeeze_from InString r.
Proof.
  induction 1 as [ | c s [Hq Hb] _ IH ]; [reflexivity | ].
  cbn [app squeeze_from].
  destruct (N.eqb_spec c 92); [contradiction | ].
  destruct (N.eqb_spec c 34); [contradiction | ]. now rewrite IH.
Qed.

Lemma squeeze_escape (x : N) (s r : str) :
  Forall (fun c => c <> 34%N /\ c <> 92%N) s ->
  squeeze_from InString (bslash :: x :: s ++ r)
  = bslash :: x :: s ++ squeeze_from InString r.
Proof.
  intros Hs. cbn [squeeze_from]. change (bslash =? 92)%N with true. cbv iota.
  now rewrite (squeeze_inert s r Hs).
Qed.

Lemma hex4_inert (n : N) : Forall (fun c => c <> 34%N /\ c <> 92%N) (Json.hex4 n).
Proof.
  assert (H : forall d, Json.hex_digit d <> 34%N /\ Json.hex_digit d <> 92%N).
  { intros d. unfold Json.hex_digit. destruct (N.ltb_spec d 10); lia. }
  unfold Json.hex4. repeat constructor; apply H.
Qed.

Lemma squeeze_escape_char (c : N) (r : str) :
  squeeze_from InString (Json.escape_char c ++ r)
  = Json.escape_char c ++ squeeze_from InString r.
Proof.
  unfold Json.escape_char.
  destruct (N.eqb_spec c 92) as [-> | H92]; [reflexivity | ].
  destruct (N.eqb_spec c 34) as [-> | H34]; [reflexivity | ].
  destruct ((32 <=? c)%N && (c <=? 126)%N).
  { apply (squeeze_inert [c]). constructor; [now split | constructor]. }
  repeat match goal with
         | |- context [if (c =? ?k)%N then _ else _] => destruct (c =? k)%N
         end; try reflexivity.
  change (lit "u") with [117%N].
  destruct (c <? 65536)%N.
  - apply (squeeze_escape 117 (Json.hex4 c)). apply hex4_inert.
  - cbv zeta. cbn [app]. rewrite <- !app_assoc.
    rewrite (squeeze_escape 117 (Json.hex4 _)) by apply hex4_inert.
    cbn [app]. rewrite (squeeze_escape 117 (Json.hex4 _)) by apply hex4_inert.
    reflexivity.
Qed.

(** A string literal of [json.dumps] is read from its opening to its
    closing quote. *)
Lemma squeeze_string (s r : str) :
  squeeze_from Outside (Json.encode_basestring_ascii s ++ r)
  = Json.encode_basestring_ascii s ++ squeeze_from Outside r.
Proof.
  unfold Json.encode_basestring_ascii. rewrite <- !app_assoc.
  cbn [app squeeze_from]. change (is_ws dquote) with false. cbv iota.
  change (dquote =? 34)%N with true. cbv iota. f_equal.
  induction s as [ | c s IH ].
  - reflexivity.
  - cbn [flat_map]. rewrite <- !app_assoc, squeeze_escape_char. now rewrite IH.
Qed.

Lemma number_app (a b : str) :
  Forall number_char a -> Forall number_char b -> Forall number_char (a ++ b).
Proof. intros Ha Hb. apply Forall_app. now split. Qed.

Lemma uint_number (u : Decimal.uint) :
  Forall number_char (lit (NilEmpty.string_of_uint u)).
Proof.
  induction u; cbn [NilEmpty.string_of_uint lit list_ascii_of_string map];
    constructor; (reflexivity || assumption).
Qed.

Lemma int_repr_number (n : Z) : Forall number_char (Json.int_repr n).
Proof.
  unfold Json.int_repr, NilZero.string_of_int, NilZero.string_of_uint.
  destruct (Z.to_int n) as [u | u].
  - destruct u; try apply uint_number. repeat constructor.
  - cbn [lit list_ascii_of_string map]. constructor; [reflexivity | ].
    destruct u; try apply uint_number. repeat constructor.
Qed.

Lemma zeros_number (n : Z) : Forall number_char (Json.zeros n).
Proof.
  unfold Json.zeros, str_mul. induction (Z.to_nat n) as [ | k IH ]; [constructor | ].
  cbn [repeat concat]. apply number_app; [repeat constructor | exact IH].
Qed.

Lemma exp_digits_number (e : Z) : Forall number_char (Json.exp_digits e).
Proof.
  unfold Json.exp_digits. destruct (len (Json.int_repr (Z.abs e)) <? 2).
  - apply number_app; [repeat constructor | apply int_repr_number].
  - apply int_repr_number.
Qed.

Lemma exponent_number (e : Z) :
  Forall number_char
    (lit "e" ++ (if e <? 0 then lit "-" else lit "+") ++ Json.exp_digits e).
Proof.
  apply number_app; [repeat constructor | ].
  apply number_app; [destruct (e <? 0); repeat constructor | apply exp_digits_number].
Qed.

Lemma floatstr_number (f : pyfloat) : Forall number_char (Json.floatstr f).
Proof.
  destruct f as [ | [ | ] | negative digits decpt ]; try (repeat constructor).
  cbn [Json.floatstr]. unfold Json.float_repr_finite.
  pose proof (uint_number digits) as Hds.
  set (ds := lit (NilEmpty.string_of_uint digits)) in *.
  assert (Hparts : Forall number_char (firstn (Z.to_nat decpt) ds)
                   /\ Forall number_char (skipn (Z.to_nat decpt) ds)).
  { apply Forall_app. now rewrite firstn_skipn. }
  destruct Hparts as [Hfirst Hskip].
  apply number_app; [destruct negative; repeat constructor | ].
  destruct ((decpt <=? -4) || (decpt >? 16)).
  - destruct ds as [ | d rest ]; [apply exponent_number | ].
    inversion Hds as [ | ? ? Hd Hrest ]; subst.
    apply number_app; [now repeat constructor | ].
    apply number_app; [ | apply exponent_number ].
    destruct rest; [constructor | ]. apply number_app; [repeat constructor | exact Hrest].
  - destruct (decpt <=? 0); [ | destruct (len ds <=? decpt) ].
    + apply number_app; [repeat constructor | ].
      apply number_app; [apply zeros_number | exact Hds].
    + apply number_app; [exact Hds | ].
      apply number_app; [apply zeros_number | repeat constructor].
    + apply number_app; [exact Hfirst | ].
      apply number_app; [repeat constructor | exact Hskip].
Qed.

Lemma squeeze_number (s r : str) :
  Forall number_char s ->
  squeeze_from Outside (s ++ r) = s ++ squeeze_from Outside r.
Proof.
  intros Hs. apply squeeze_tokens. eapply Forall_impl; [ | exact Hs ].
  intros c Hc. apply existsb_exists in Hc.
  destruct Hc as (x & Hin & Heq). apply N.eqb_eq in Heq. subst x.
  cbn in Hin.
  repeat (destruct Hin as [<- | Hin]; [split; [reflexivity | discriminate] | ]).
  destruct Hin.
Qed.

Lemma squeeze_join {A : Type} (f g : A -> str) (sep : str) (xs : list A) :
  (forall r, squeeze_from Outside (sep ++ r) = lit "," ++ squeeze_from Outside r) ->
  Forall (fun x => forall r, squeeze_from Outside (f x ++ r)
                             = g x ++ squeeze_from Outside r) xs ->
  forall r, squeeze_from Outside (join sep (map f xs) ++ r)
            = join (lit ",") (map g xs) ++ squeeze_from Outside r.
Proof.
  intros Hsep. induction 1 as [ | x xs Hx _ IH ]; intros r; [reflexivity | ].
  destruct xs as [ | y xs ]; [apply Hx | ].
  change (join sep (map f (x :: y :: xs)))
    with (f x ++ sep ++ join sep (map f (y :: xs))).
  change (join (lit ",") (map g (x :: y :: xs)))
    with (g x ++ lit "," ++ join (lit ",") (map g (y :: xs))).
  rewrite <- !app_assoc, Hx, Hsep, IH. reflexivity.
Qed.

(** Without the whitespace outside its string literals, the text
    [json.dumps] writes with the separators [', '] and [': '] is the text it
    writes with [','] and [':'], which has no such whitespace. *)
Lemma squeeze_dumps (item_sep key_sep : str) :
  (forall r, squeeze_from Outside (item_sep ++ r) = lit "," ++ squeeze_from Outside r) ->
  (forall r, squeeze_from Outside (key_sep ++ r) = lit ":" ++ squeeze_from Outside r) ->
  forall obj r,
  squeeze_from Outside (Json.dumps item_sep key_sep obj ++ r)
  = Json.dumps (lit ",") (lit ":") obj ++ squeeze_from Outside r.
Proof.
  intros Hitem Hkey.
  induction obj as [ | [ | ] | n | f | s | items IH | d IH ] using json_ind; intros r;
    cbn [Json.dumps]; try reflexivity.
  - apply squeeze_number, int_repr_number.
  - apply squeeze_number, floatstr_number.
  - apply squeeze_string.
  - destruct items as [ | x items ]; [reflexivity | ].
    rewrite <- !app_assoc. change (lit "[" ++ ?t) with (91%N :: t). cbn [squeeze_from].
    change (is_ws 91) with false. change (91 =? 34)%N with false. cbv iota.
    f_equal. rewrite (squeeze_join _ (Json.dumps (lit ",") (lit ":")) _ _ Hitem IH).
    reflexivity.
  - destruct d as [ | kv d ]; [reflexivity | ].
    rewrite <- !app_assoc. change (lit "{" ++ ?t) with (123%N :: t). cbn [squeeze_from].
    change (is_ws 123) with false. change (123 =? 34)%N with false. cbv iota.
    f_equal.
    rewrite (squeeze_join _
               (fun kv => Json.encode_basestring_ascii (fst kv) ++ lit ":"
                          ++ Json.dumps (lit ",") (lit ":") (snd kv)) _ _ Hitem).
    + reflexivity.
    + eapply Forall_impl; [ | exact IH ]. intros kv' Hkv' r'. cbv beta in Hkv'.
      rewrite <- !app_assoc, squeeze_string, Hkey, Hkv'. reflexivity.
Qed.

Lemma squeeze_spaced (obj : json) (r : str) :
  squeeze_from Outside (Json.dumps (lit ", ") (lit ": ") obj ++ r)
  = Json.dumps (lit ",") (lit ":") obj ++ squeeze_from Outside r.
Proof. apply squeeze_dumps; reflexivity. Qed.

Lemma encode_plain (k : str) :
  plain_key k = true -> Json.encode_basestring_ascii k = quoted k.
Proof.
  unfold Json.encode_basestring_ascii, quoted, plain_key. intros H. do 2 f_equal.
  induction k as [ | c k IH ]; [reflexivity | ].
  cbn [flat_map forallb] in *. apply andb_true_iff in H. destruct H as [Hc Hk].
  destruct (escape_char_plain c) as [ [_ ->] | [Hc' _] ]; [ | congruence ].
  cbn [app]. f_equal. now apply IH.
Qed.

Lemma squeeze_quoted (k r : str) :
  plain_key k = true ->
  squeeze_from Outside ([dquote] ++ k ++ [dquote] ++ r)
  = Json.encode_basestring_ascii k ++ squeeze_from Outside r.
Proof.
  intros Hk. rewrite <- squeeze_string, (encode_plain k Hk). unfold quoted.
  now rewrite <- !app_assoc.
Qed.

Lemma str_mul_ws (s : str) (n : Z) :
  Forall (fun c => is_ws c = true) s -> Forall (fun c => is_ws c = true) (str_mul s n).
Proof.
  intros Hs. unfold str_mul. apply Forall_concat.
  apply Forall_forall. intros x Hx. apply repeat_spec in Hx. now subst.
Qed.

(** The lines between the brackets of a layout: a line feed, the items
    separated by a comma and a line feed, a line feed and the indentation
    of the closing bracket. *)
Lemma squeeze_lines {A : Type} (f g : A -> str) (indent : str) (xs : list A) (r : str) :
  Forall (fun c => is_ws c = true) indent ->
  Forall (fun x => forall r, squeeze_from Outside (f x ++ r)
                             = g x ++ squeeze_from Outside r) xs ->
  squeeze_from Outside
    ([nl] ++ join (lit "," ++ [nl]) (map f xs) ++ [nl] ++ indent ++ r)
  = join (lit ",") (map g xs) ++ squeeze_from Outside r.
Proof.
  intros Hindent Hxs.
  change ([nl] ++ ?t) with (nl :: t). cbn [squeeze_from]. change (is_ws nl) with true.
  cbv iota. rewrite (squeeze_join f g (lit "," ++ [nl]) xs); [ | reflexivity | exact Hxs ].
  f_equal. change ([nl] ++ indent ++ r) with (nl :: indent ++ r).
  cbn [squeeze_from]. change (is_ws nl) with true. cbv iota.
  now apply squeeze_ws.
Qed.

Lemma bracket_layout_join (indent next_indent key : str) (formatted : list str) :
  formatted <> [] ->
  bracket_layout indent next_indent key formatted
  = lit "{ " ++ quoted key ++ lit ": [" ++ [nl]
    ++ join (lit "," ++ [nl]) (map (fun item => next_indent ++ item) formatted)
    ++ [nl] ++ indent ++ lit "]}".
Proof.
  intros Hne. unfold bracket_layout, bracket_lines, quoted.
  rewrite (bracket_loop_join next_indent (len formatted) formatted Hne 0);
    [ | reflexivity ].
  rewrite <- !app_assoc. reflexivity.
Qed.

Lemma squeeze_bracket_layout (indent next_indent key : str) (items : list json)
  (fmt : json -> str) (r : str) :
  items <> [] ->
  plain_key key = true ->
  Forall (fun c => is_ws c = true) indent ->
  Forall (fun x => forall r, squeeze_from Outside ((next_indent ++ fmt x) ++ r)
                             = Json.dumps (lit ",") (lit ":") x
                               ++ squeeze_from Outside r) items ->
  squeeze_from Outside (bracket_layout indent next_indent key (map fmt items) ++ r)
  = Json.dumps (lit ",") (lit ":") (JDict [(key, JList items)])
    ++ squeeze_from Outside r.
Proof.
  intros Hne Hkey Hindent Hitems.
  rewrite bracket_layout_join by (destruct items; [congruence | discriminate]).
  rewrite map_map, <- (encode_plain key Hkey), <- !app_assoc.
  change (lit "{ " ++ ?t) with (123%N :: 32%N :: t). cbn [squeeze_from].
  change (is_ws 123) with false. change (123 =? 34)%N with false.
  change (is_ws 32) with true. cbv iota.
  rewrite squeeze_string.
  change (lit ": [" ++ ?t) with (58%N :: 32%N :: 91%N :: t). cbn [squeeze_from].
  change (is_ws 58) with false. change (58 =? 34)%N with false.
  change (is_ws 32) with true. change (is_ws 91) with false.
  change (91 =? 34)%N with false. cbv iota.
  rewrite (squeeze_lines (fun x => next_indent ++ fmt x)
             (Json.dumps (lit ",") (lit ":")) indent items _ Hindent Hitems).
  destruct items as [ | x items ]; [congruence | ].
  cbn [Json.dumps join map fst snd]. rewrite <- !app_assoc. reflexivity.
Qed.

Lemma squeeze_regular_layout (indent next_indent : str) (d : list (str * json))
  (fmt : json -> str) (r : str) :
  d <> [] ->
  Forall (fun c => is_ws c = true) indent ->
  Forall (fun c => is_ws c = true) next_indent ->
  Forall (fun kv => plain_key (fst kv) = true /\
                    forall r, squeeze_from Outside (fmt (snd kv) ++ r)
                              = Json.dumps (lit ",") (lit ":") (snd kv)
                                ++ squeeze_from Outside r) d ->
  squeeze_from Outside
    (regular_layout indent next_indent (map (fun kv => (fst kv, fmt (snd kv))) d) ++ r)
  = Json.dumps (lit ",") (lit ":") (JDict d) ++ squeeze_from Outside r.
Proof.
  intros Hne Hindent Hnext Hd. unfold regular_layout.
  rewrite map_map. cbn [fst snd]. rewrite <- !app_assoc.
  change (lit "{" ++ ?t) with (123%N :: t). cbn [squeeze_from].
  change (is_ws 123) with false. change (123 =? 34)%N with false. cbv iota.
  rewrite (squeeze_lines _
             (fun kv => Json.encode_basestring_ascii (fst kv) ++ lit ":"
                        ++ Json.dumps (lit ",") (lit ":") (snd kv)) indent d _ Hindent).
  - destruct d as [ | kv d ]; [congruence | ].
    cbn [Json.dumps]. rewrite <- !app_assoc. reflexivity.
  - eapply Forall_impl; [ | exact Hd ]. intros kv [Hkey Hkv] r'.
    rewrite <- !app_assoc, (squeeze_ws next_indent _ Hnext).
    rewrite (squeeze_quoted _ _ Hkey).
    change (lit ": " ++ ?t) with (58%N :: 32%N :: t). cbn [squeeze_from].
    change (is_ws 58) with false. change (58 =? 34)%N with false.
    change (is_ws 32) with true. cbv iota. now rewrite Hkv.
Qed.

Lemma format_value_squeeze_rest (self : SemiBeautifier) :
  Forall (fun c => is_ws c = true) (indent_str self) ->
  forall obj,
    (all_keys plain_key obj = true ->
     forall depth r,
       squeeze_from Outside (format_value self obj depth ++ r)
       = Json.dumps (lit ",") (lit ":") obj ++ squeeze_from Outside r) /\
    (forall items, obj = JList items ->
     Forall (fun x => all_keys plain_key x = true ->
                      forall depth r,
                        squeeze_from Outside (format_value self x depth ++ r)
                        = Json.dumps (lit ",") (lit ":") x ++ squeeze_from Outside r)
            items).
Proof.
  intros Hws.
  assert (Hindent : forall n, Forall (fun c => is_ws c = true) (str_mul (indent_str self) n))
    by (intros n; now apply str_mul_ws).
  induction obj as [ | b | n | f | s | items IH | d IH ] using json_ind;
    try (split; [intros _ depth r; apply squeeze_spaced | discriminate]).
  - assert (Hitems : Forall (fun x => all_keys plain_key x = true ->
                        forall depth r,
                          squeeze_from Outside (format_value self x depth ++ r)
                          = Json.dumps (lit ",") (lit ":") x ++ squeeze_from Outside r)
                       items).
    { eapply Forall_impl; [ | exact IH ]. intros x [Hx _]. exact Hx. }
    split; [ | intros items' Heq; injection Heq as <-; exact Hitems ].
    intros Hkeys depth r. cbn [all_keys] in Hkeys. rewrite forallb_forall in Hkeys.
    cbn [format_value is_scalar].
    destruct (should_inline self (JList items)); [apply squeeze_spaced | ].
    destruct items as [ | x items ]; [reflexivity | ].
    destruct (forallb is_scalar (x :: items) && _); [apply squeeze_spaced | ].
    unfold multiline_layout. rewrite map_map, <- !app_assoc.
    change (lit "[" ++ ?t) with (91%N :: t). cbn [squeeze_from].
    change (is_ws 91) with false. change (91 =? 34)%N with false. cbv iota.
    rewrite (squeeze_lines _ (Json.dumps (lit ",") (lit ":")) _ (x :: items) _ (Hindent _)).
    + cbn [Json.dumps]. rewrite <- !app_assoc. reflexivity.
    + rewrite Forall_forall in *. intros y Hy r'.
      rewrite <- app_assoc, (squeeze_ws _ _ (Hindent _)).
      apply (Hitems y Hy). now apply Hkeys.
  - split; [ | discriminate ].
    intros Hkeys depth r. cbn [all_keys] in Hkeys. rewrite forallb_forall in Hkeys.
    assert (Hregular : d <> [] ->
      squeeze_from Outside
        (regular_layout (str_mul (indent_str self) depth)
           (str_mul (indent_str self) (depth + 1))
           (map (fun kv => (fst kv, format_value self (snd kv) (depth + 1))) d) ++ r)
      = Json.dumps (lit ",") (lit ":") (JDict d) ++ squeeze_from Outside r).
    { intros Hne.
      apply (squeeze_regular_layout _ _ d (fun v => format_value self v (depth + 1)));
        auto.
      rewrite Forall_forall in *. intros kv Hkv.
      specialize (Hkeys kv Hkv). apply andb_true_iff in Hkeys. destruct Hkeys as [Hk Hv].
      split; [exact Hk | ]. intros r'. now apply (proj1 (IH kv Hkv)). }
    cbn [format_value is_scalar].
    destruct (should_inline self (JDict d)); [apply squeeze_spaced | ].
    destruct d as [ | [key value] [ | kv d ] ];
      [reflexivity | | apply Hregular; discriminate].
    specialize (Hregular ltac:(discriminate)).
    destruct value as [ | | | | | items | ]; try exact Hregular.
    assert (Hkey : plain_key key = true).
    { specialize (Hkeys _ (or_introl eq_refl)). now apply andb_true_iff in Hkeys. }
    assert (Hitems :
      Forall (fun x => forall r,
                squeeze_from Outside
                  ((str_mul (indent_str self) (depth + 1)
                    ++ format_value self x (depth + 1)) ++ r)
                = Json.dumps (lit ",") (lit ":") x ++ squeeze_from Outside r) items).
    { inversion IH as [ | ? ? [_ Hvalue] _ ]; subst. cbn [snd] in Hvalue.
      specialize (Hvalue items eq_refl).
      specialize (Hkeys _ (or_introl eq_refl)). apply andb_true_iff in Hkeys.
      destruct Hkeys as [_ Hv]. cbn [snd all_keys] in Hv. rewrite forallb_forall in Hv.
      rewrite Forall_forall in *. intros x Hx r'.
      rewrite <- app_assoc, (squeeze_ws _ _ (Hindent _)).
      apply (Hvalue x Hx). now apply Hv. }
    destruct (str_eqb key (lit "if") && (len items >=? 2)) eqn:Hif.
    { apply andb_true_iff in Hif. destruct Hif as [Hif Hlen].
      apply str_eqb_eq in Hif. subst key.
      apply (squeeze_bracket_layout _ _ (lit "if") items
               (fun item => format_value self item (depth + 1))); auto.
      intros ->. discriminate Hlen. }
    destruct (str_in key [lit "and"; lit "or"] && (len items >? 2)) eqn:Hand;
      [ | exact Hregular ].
    apply andb_true_iff in Hand. destruct Hand as [_ Hlen].
    apply (squeeze_bracket_layout _ _ key items
             (fun item => format_value self item (depth + 1))); auto.
    intros ->. discriminate Hlen.
Qed.

(** Formatting changes whitespace only.  For a beautifier whose indentation
    string is made of whitespace, and a value all of whose keys consist of
    printable ASCII characters other than the double quote and the
    backslash: the text [format_value] returns, without the whitespace that
    stands outside its string literals, is the compact encoding
    [json.dumps(obj, separators=(',', ':'))]. *)
Theorem format_value_whitespace_only (self : SemiBeautifier) (obj : json) (depth : Z) :
  Forall (fun c => is_ws c = true) (indent_str self) ->
  all_keys plain_key obj = true ->
  squeeze (format_value self obj depth) = Json.dumps (lit ",") (lit ":") obj.
Proof.
  intros Hws Hkeys. unfold squeeze.
  pose proof (proj1 (format_value_squeeze_rest self Hws obj) Hkeys depth []) as H.
  now rewrite !app_nil_r in H.
Qed.

Lemma format_value_whitespace_only_witness :
  squeeze (format_value (init 10 3 2)
             (JDict [(lit "and", JList [JStr (lit "a b"); JInt 1; JNull])]) 0)
  = Json.dumps (lit ",") (lit ":")
      (JDict [(lit "and", JList [JStr (lit "a b"); JInt 1; JNull])]).
Proof.
  apply format_value_whitespace_only.
  - repeat constructor.
  - reflexivity.
Defined.

(** ** One level deeper *)

Lemma reindent_app (unit a b : str) :
  reindent unit (a ++ b) = reindent unit a ++ reindent unit b.
Proof. unfold reindent. apply flat_map_app. Qed.

Lemma reindent_nl (unit : str) : reindent unit [nl] = [nl] ++ unit.
Proof. unfold reindent. cbn. now rewrite app_nil_r. Qed.

Lemma reindent_no_newline (unit s : str) : no_newline s -> reindent unit s = s.
Proof.
  induction 1 as [ | c s Hc _ IH ]; [reflexivity | ].
  unfold reindent in *. cbn [flat_map].
  destruct (N.eqb_spec c 10) as [-> | _]; [now contradiction Hc | ].
  cbn [app]. now rewrite IH.
Qed.

Lemma str_mul_succ (s : str) (n : Z) : 0 <= n -> str_mul s (n + 1) = s ++ str_mul s n.
Proof.
  intros Hn. unfold str_mul. replace (Z.to_nat (n + 1)) with (S (Z.to_nat n)) by lia.
  reflexivity.
Qed.

Lemma str_mul_no_newline (s : str) (n : Z) : no_newline s -> no_newline (str_mul s n).
Proof.
  intros Hs. unfold str_mul, no_newline. apply Forall_concat.
  apply Forall_forall. intros x Hx. apply repeat_spec in Hx. now subst.
Qed.

Lemma single_line_key_no_newline (k : str) : single_line_key k = true -> no_newline k.
Proof.
  unfold single_line_key. intros H. apply negb_true_iff in H.
  apply Forall_forall. intros c Hin ->.
  assert (Hex : existsb (N.eqb nl) k = true)
    by (apply existsb_exists; exists nl; split; [exact Hin | apply N.eqb_refl]).
  congruence.
Qed.

Lemma reindent_join {A : Type} (unit : str) (F F' : A -> str) (xs : list A) :
  xs <> [] ->
  Forall (fun x => unit ++ reindent unit (F x) = F' x) xs ->
  unit ++ reindent unit (join (lit "," ++ [nl]) (map F xs))
  = join (lit "," ++ [nl]) (map F' xs).
Proof.
  intros Hne. induction 1 as [ | x xs Hx Hxs IH ]; [congruence | ].
  destruct xs as [ | y xs ]; [exact Hx | ].
  change (join (lit "," ++ [nl]) (map F (x :: y :: xs)))
    with (F x ++ (lit "," ++ [nl]) ++ join (lit "," ++ [nl]) (map F (y :: xs))).
  change (join (lit "," ++ [nl]) (map F' (x :: y :: xs)))
    with (F' x ++ (lit "," ++ [nl]) ++ join (lit "," ++ [nl]) (map F' (y :: xs))).
  rewrite !reindent_app, app_assoc, Hx.
  change (reindent unit (lit ",")) with (lit ",").
  rewrite reindent_nl, <- !app_assoc. now rewrite (IH ltac:(discriminate)).
Qed.

Lemma reindent_lines {A : Type} (unit : str) (F F' : A -> str) (indent : str)
  (xs : list A) (tail : str) :
  xs <> [] ->
  no_newline indent ->
  Forall (fun x => unit ++ reindent unit (F x) = F' x) xs ->
  reindent unit ([nl] ++ join (lit "," ++ [nl]) (map F xs) ++ [nl] ++ indent ++ tail)
  = [nl] ++ join (lit "," ++ [nl]) (map F' xs) ++ [nl] ++ (unit ++ indent)
    ++ reindent unit tail.
Proof.
  intros Hne Hindent Hxs. rewrite !reindent_app, !reindent_nl.
  rewrite (reindent_no_newline unit indent Hindent).
  rewrite <- (reindent_join unit F F' xs Hne Hxs).
  now rewrite <- !app_assoc.
Qed.

Lemma reindent_multiline (unit indent next_indent : str) (fmt fmt' : json -> str)
  (items : list json) :
  items <> [] -> no_newline indent -> no_newline next_indent ->
  Forall (fun x => fmt' x = reindent unit (fmt x)) items ->
  multiline_layout (unit ++ indent) (unit ++ next_indent) (map fmt' items)
  = reindent unit (multiline_layout indent next_indent (map fmt items)).
Proof.
  intros Hne Hindent Hnext Hitems. unfold multiline_layout. cbv zeta.
  rewrite !map_map, reindent_app. symmetry. f_equal.
  apply (reindent_lines unit (fun x => next_indent ++ fmt x)
           (fun x => (unit ++ next_indent) ++ fmt' x) indent items (lit "]") Hne Hindent).
  eapply Forall_impl; [ | exact Hitems ]. intros x Hx. cbv beta in *.
  rewrite reindent_app, (reindent_no_newline unit next_indent Hnext), Hx.
  now rewrite app_assoc.
Qed.

Lemma reindent_regular (unit indent next_indent : str) (fmt fmt' : json -> str)
  (d : list (str * json)) :
  d <> [] -> no_newline indent -> no_newline next_indent ->
  Forall (fun kv => no_newline (fst kv) /\ fmt' (snd kv) = reindent unit (fmt (snd kv))) d ->
  regular_layout (unit ++ indent) (unit ++ next_indent)
    (map (fun kv => (fst kv, fmt' (snd kv))) d)
  = reindent unit
      (regular_layout indent next_indent (map (fun kv => (fst kv, fmt (snd kv))) d)).
Proof.
  intros Hne Hindent Hnext Hd. unfold regular_layout. cbv zeta.
  rewrite !map_map. cbn [fst snd]. rewrite reindent_app. symmetry. f_equal.
  apply (reindent_lines unit
           (fun kv => next_indent ++ [dquote] ++ fst kv ++ [dquote] ++ lit ": "
                      ++ fmt (snd kv))
           (fun kv => (unit ++ next_indent) ++ [dquote] ++ fst kv ++ [dquote] ++ lit ": "
                      ++ fmt' (snd kv)) indent d (lit "}") Hne Hindent).
  eapply Forall_impl; [ | exact Hd ]. intros kv [Hk Hkv]. cbv beta. unfold str in *.
  rewrite !reindent_app, (reindent_no_newline unit next_indent Hnext),
    (reindent_no_newline unit (fst kv) Hk), Hkv.
  now rewrite <- !app_assoc.
Qed.

Lemma reindent_bracket (unit indent next_indent key : str) (fmt fmt' : json -> str)
  (items : list json) :
  items <> [] -> no_newline indent -> no_newline next_indent -> no_newline key ->
  Forall (fun x => fmt' x = reindent unit (fmt x)) items ->
  bracket_layout (unit ++ indent) (unit ++ next_indent) key (map fmt' items)
  = reindent unit (bracket_layout indent next_indent key (map fmt items)).
Proof.
  intros Hne Hindent Hnext Hkey Hitems.
  rewrite !bracket_layout_join by (destruct items; [congruence | discriminate]).
  rewrite !map_map.
  rewrite (reindent_app unit (lit "{ ")), (reindent_app unit (quoted key)).
  rewrite (reindent_app unit (lit ": [")).
  rewrite (reindent_no_newline unit (quoted key)).
  - symmetry. do 3 f_equal.
    apply (reindent_lines unit (fun x => next_indent ++ fmt x)
             (fun x => (unit ++ next_indent) ++ fmt' x) indent items (lit "]}")
             Hne Hindent).
    eapply Forall_impl; [ | exact Hitems ]. intros x Hx. cbv beta in *.
    rewrite reindent_app, (reindent_no_newline unit next_indent Hnext), Hx.
    now rewrite app_assoc.
  - unfold quoted. apply no_newline_app; [no_newline_literal | ].
    apply no_newline_app; [exact Hkey | no_newline_literal].
Qed.

Lemma format_value_deeper_nested (self : SemiBeautifier) :
  no_newline (indent_str self) ->
  forall obj,
    (all_keys single_line_key obj = true ->
     forall depth, 0 <= depth ->
       format_value self obj (depth + 1)
       = reindent (indent_str self) (format_value self obj depth)) /\
    (forall items, obj = JList items ->
     Forall (fun x => all_keys single_line_key x = true ->
                      forall depth, 0 <= depth ->
                        format_value self x (depth + 1)
                        = reindent (indent_str self) (format_value self x depth))
            items).
Proof.
  intros Hunit.
  assert (Hindent : forall n, no_newline (str_mul (indent_str self) n))
    by (intros n; now apply str_mul_no_newline).
  assert (Hnext : forall n,
    no_newline (indent_str self ++ str_mul (indent_str self) n))
    by (intros n; now apply no_newline_app).
  assert (Hdumps : forall obj,
    Json.dumps (lit ", ") (lit ": ") obj
    = reindent (indent_str self) (Json.dumps (lit ", ") (lit ": ") obj)).
  { intros obj. symmetry. apply reindent_no_newline.
    apply dumps_no_newline; no_newline_literal. }
  induction obj as [ | b | n | f | s | items IH | d IH ] using json_ind;
    try (split; [intros _ depth _; apply Hdumps | discriminate]).
  - assert (Hitems : Forall (fun x => all_keys single_line_key x = true ->
                        forall depth, 0 <= depth ->
                          format_value self x (depth + 1)
                          = reindent (indent_str self) (format_value self x depth))
                       items).
    { eapply Forall_impl; [ | exact IH ]. intros x [Hx _]. exact Hx. }
    split; [ | intros items' Heq; injection Heq as <-; exact Hitems ].
    intros Hkeys depth Hdepth. cbn [all_keys] in Hkeys. rewrite forallb_forall in Hkeys.
    cbn [format_value is_scalar].
    destruct (should_inline self (JList items)); [apply Hdumps | ].
    destruct items as [ | x items ]; [reflexivity | ].
    destruct (forallb is_scalar (x :: items) && _); [apply Hdumps | ].
    rewrite (str_mul_succ _ (depth + 1)), (str_mul_succ _ depth) by lia.
    apply reindent_multiline; [discriminate | apply Hindent | apply Hnext | ].
    rewrite Forall_forall in *. intros y Hy.
    apply (Hitems y Hy); [now apply Hkeys | lia].
  - split; [ | discriminate ].
    intros Hkeys depth Hdepth. cbn [all_keys] in Hkeys. rewrite forallb_forall in Hkeys.
    assert (Hregular : d <> [] ->
      regular_layout (str_mul (indent_str self) (depth + 1))
        (str_mul (indent_str self) (depth + 1 + 1))
        (map (fun kv => (fst kv, format_value self (snd kv) (depth + 1 + 1))) d)
      = reindent (indent_str self)
          (regular_layout (str_mul (indent_str self) depth)
             (str_mul (indent_str self) (depth + 1))
             (map (fun kv => (fst kv, format_value self (snd kv) (depth + 1))) d))).
    { intros Hne.
      rewrite (str_mul_succ _ (depth + 1)), (str_mul_succ _ depth) by lia.
      apply (reindent_regular _ _ _ (fun v => format_value self v (depth + 1))
               (fun v => format_value self v (depth + 1 + 1)));
        [exact Hne | apply Hindent | apply Hnext | ].
      rewrite Forall_forall in *. intros kv Hkv.
      specialize (Hkeys kv Hkv). apply andb_true_iff in Hkeys. destruct Hkeys as [Hk Hv].
      split; [now apply single_line_key_no_newline | ].
      apply (proj1 (IH kv Hkv)); [exact Hv | lia]. }
    cbn [format_value is_scalar].
    destruct (should_inline self (JDict d)); [apply Hdumps | ].
    destruct d as [ | [key value] [ | kv d ] ];
      [reflexivity | | apply Hregular; discriminate].
    specialize (Hregular ltac:(discriminate)).
    destruct value as [ | | | | | items | ]; try exact Hregular.
    assert (Hkey : no_newline key).
    { specialize (Hkeys _ (or_introl eq_refl)). apply andb_true_iff in Hkeys.
      now apply single_line_key_no_newline. }
    assert (Hitems :
      Forall (fun x => format_value self x (depth + 1 + 1)
                       = reindent (indent_str self) (format_value self x (depth + 1)))
             items).
    { inversion IH as [ | ? ? [_ Hvalue] _ ]; subst. cbn [snd] in Hvalue.
      specialize (Hvalue items eq_refl).
      specialize (Hkeys _ (or_introl eq_refl)). apply andb_true_iff in Hkeys.
      destruct Hkeys as [_ Hv]. cbn [snd all_keys] in Hv. rewrite forallb_forall in Hv.
      rewrite Forall_forall in *. intros x Hx.
      apply (Hvalue x Hx); [now apply Hv | lia]. }
    destruct (str_eqb key (lit "if") && (len items >=? 2)) eqn:Hif.
    { apply andb_true_iff in Hif. destruct Hif as [_ Hlen].
      rewrite (str_mul_succ _ (depth + 1)), (str_mul_succ _ depth) by lia.
      apply (reindent_bracket _ _ _ (lit "if")
               (fun item => format_value self item (depth + 1))
               (fun item => format_value self item (depth + 1 + 1)));
        [ | apply Hindent | apply Hnext | no_newline_literal | exact Hitems ].
      intros ->. discriminate Hlen. }
    destruct (str_in key [lit "and"; lit "or"] && (len items >? 2)) eqn:Hand;
      [ | exact Hregular ].
    apply andb_true_iff in Hand. destruct Hand as [_ Hlen].
    rewrite (str_mul_succ _ (depth + 1)), (str_mul_succ _ depth) by lia.
    apply (reindent_bracket _ _ _ key
             (fun item => format_value self item (depth + 1))
             (fun item => format_value self item (depth + 1 + 1)));
      [ | apply Hindent | apply Hnext | exact Hkey | exact Hitems ].
    intros ->. discriminate Hlen.
Qed.

(** Rendering one level deeper only indents.  For a depth that is not
    negative, an indentation string without line feed and a value whose
    keys have no line feed: the text [format_value] returns at [depth + 1]
    is the text it returns at [depth] with the indentation string inserted
    after each line feed. *)
Theorem format_value_deeper (self : SemiBeautifier) (obj : json) (depth : Z) :
  0 <= depth ->
  no_newline (indent_str self) ->
  all_keys single_line_key obj = true ->
  format_value self obj (depth + 1)
  = reindent (indent_str self) (format_value self obj depth).
Proof.
  intros Hdepth Hunit Hkeys.
  now apply (proj1 (format_value_deeper_nested self Hunit obj)).
Qed.

Lemma format_value_deeper_witness :
  format_value (init 10 3 2) (JDict [(lit "k", ints [100; 200; 300; 400])]) (0 + 1)
  = reindent (lit "  ")
      (format_value (init 10 3 2) (JDict [(lit "k", ints [100; 200; 300; 400])]) 0).
Proof.
  apply (format_value_deeper (init 10 3 2)).
  - lia.
  - no_newline_literal.
  - reflexivity.
Defined.
